(** * pipe: the blog path dispatcher of [controller/router.go]

    A shallow embedding of [routePath] (router.go, lines 174-235) and of the
    blog route group registered by [MapRoutes] (lines 148-151), with the
    properties of the dispatch specification stated over it; then the rest
    of [MapRoutes]: the template functions "dict" and "minus", the options
    of the session cookie, the static mounts of the themes and the table
    of the routes with their middleware.

    Go strings are byte strings: they are modelled by [string], whose
    characters are bytes, and Go's [==] on strings by [String.eqb]. *)

From Stdlib Require Import String Ascii List Bool Arith Lia ZArith
  DecimalString.
Import ListNotations.
Open Scope string_scope.

(** ** The pieces of Go's [strings] package that the router uses *)

Module strings.

(** [strings.HasPrefix(s, prefix)]: [s] begins with [prefix]. *)
Definition HasPrefix (s prefix : string) : bool := String.prefix prefix s.

(** [strings.Contains(s, substr)]: [substr] occurs somewhere within [s];
    the occurrence is searched at every offset of [s], the end included
    (so that the empty string is contained in every string). *)
Fixpoint Contains (s substr : string) : bool :=
  HasPrefix s substr ||
  match s with
  | EmptyString => false
  | String _ s' => Contains s' substr
  end.

End strings.

(** ** The path constants of package [util] *)

Module util.

(** The constants [util.PathActivities] ... [util.PathAtom] that
    [routePath] compares the route path with.  Their declarations are in
    package [util]; the dispatcher is verified for an arbitrary table and
    the concrete table below is used for the examples. *)
Record Paths : Type := {
  PathActivities : string;
  PathArchives : string;
  PathAuthors : string;
  PathCategories : string;
  PathTags : string;
  PathComments : string;
  PathAtom : string
}.

(** The seven entries of the exact-match stage, in the order of the
    [switch] of [routePath]. *)
Definition exactPaths (P : Paths) : list string :=
  [PathActivities P; PathArchives P; PathAuthors P; PathCategories P;
   PathTags P; PathComments P; PathAtom P].

(** Modelled from the spec: the values of the path constants, which are
    declared in package [util] and not in router.go.  The specification
    writes route paths without a leading separator and names the segments
    "archives", "authors", "categories", "tags" and "comments"; the
    activities and feed segments are named after their constants. *)
Definition specPaths : Paths := {|
  PathActivities := "activities";
  PathArchives := "archives";
  PathAuthors := "authors";
  PathCategories := "categories";
  PathTags := "tags";
  PathComments := "comments";
  PathAtom := "atom.xml"
|}.

End util.

(** ** The part of [gin.Context] that the router reads *)

Module gin.

Section RequestContext.

(** The request-scoped data other than the URL parameters (the keys set
    by the middleware: blog, owner, viewer). *)
Variable K : Type.

Record Context : Type := {
  Params : list (string * string);
  Keys : K
}.

(** [Params.ByName]: the value of the first parameter whose key is
    [name], the empty string when there is none. *)
Fixpoint ByName (ps : list (string * string)) (name : string) : string :=
  match ps with
  | [] => ""
  | (key, value) :: ps' => if key =? name then value else ByName ps' name
  end.

(** [c.Param(key)] *)
Definition Param (c : Context) (key : string) : string :=
  ByName (Params c) key.

End RequestContext.

Arguments Params {K} _.
Arguments Keys {K} _.
Arguments Param {K} _ _.

End gin.

(** ** The dispatcher *)

(** The content view handlers that [routePath] calls; their bodies are in
    other files of package [controller]. *)
Inductive Action : Type :=
| showActivitiesAction
| showArchivesAction
| showAuthorsAction
| showCategoriesAction
| showTagsAction
| addCommentAction
| outputAtomAction
| showArchiveArticlesAction
| showAuthorArticlesAction
| showCategoryArticlesArticlesAction
| showTagArticlesAction
| getRepliesAction.

(** The View Kinds of the specification. *)
Inductive ViewKind : Type :=
| Activities | Archives | Authors | Categories | Tags | Comments | AtomFeed
| ArchiveArticles | AuthorArticles | CategoryArticles | TagArticles
| CommentReplies | Unhandled.

Definition viewKind (a : Action) : ViewKind :=
  match a with
  | showActivitiesAction => Activities
  | showArchivesAction => Archives
  | showAuthorsAction => Authors
  | showCategoriesAction => Categories
  | showTagsAction => Tags
  | addCommentAction => Comments
  | outputAtomAction => AtomFeed
  | showArchiveArticlesAction => ArchiveArticles
  | showAuthorArticlesAction => AuthorArticles
  | showCategoryArticlesArticlesAction => CategoryArticles
  | showTagArticlesAction => TagArticles
  | getRepliesAction => CommentReplies
  end.

(** The entries of the exact-match stage with their constant and handler. *)
Inductive Entry : Type :=
| EActivities | EArchives | EAuthors | ECategories | ETags | EComments | EAtom.

Definition entryPath (P : util.Paths) (e : Entry) : string :=
  match e with
  | EActivities => util.PathActivities P
  | EArchives => util.PathArchives P
  | EAuthors => util.PathAuthors P
  | ECategories => util.PathCategories P
  | ETags => util.PathTags P
  | EComments => util.PathComments P
  | EAtom => util.PathAtom P
  end.

Definition entryAction (e : Entry) : Action :=
  match e with
  | EActivities => showActivitiesAction
  | EArchives => showArchivesAction
  | EAuthors => showAuthorsAction
  | ECategories => showCategoriesAction
  | ETags => showTagsAction
  | EComments => addCommentAction
  | EAtom => outputAtomAction
  end.

(** Go rejects a [switch] with two equal constant cases: the seven entries
    of a table the router compiles with are pairwise distinct. *)
Definition distinctEntries (P : util.Paths) : Prop :=
  forall e1 e2 : Entry, entryPath P e1 = entryPath P e2 -> e1 = e2.

(** The route path is one of the seven entries. *)
Definition isExact (P : util.Paths) (path : string) : bool :=
  existsb (String.eqb path) (util.exactPaths P).

(** The keywords of the second stage, in the order of its [if] statements,
    with their constant and handler. *)
Inductive Keyword : Type :=
| KArchives | KAuthors | KCategories | KTags | KComments.

Definition keywordPath (P : util.Paths) (k : Keyword) : string :=
  match k with
  | KArchives => util.PathArchives P
  | KAuthors => util.PathAuthors P
  | KCategories => util.PathCategories P
  | KTags => util.PathTags P
  | KComments => util.PathComments P
  end.

Definition filteredAction (k : Keyword) : Action :=
  match k with
  | KArchives => showArchiveArticlesAction
  | KAuthors => showAuthorArticlesAction
  | KCategories => showCategoryArticlesArticlesAction
  | KTags => showTagArticlesAction
  | KComments => getRepliesAction
  end.

Definition bareEntry (k : Keyword) : Entry :=
  match k with
  | KArchives => EArchives
  | KAuthors => EAuthors
  | KCategories => ECategories
  | KTags => ETags
  | KComments => EComments
  end.

(** Position of a keyword in the order of the tests. *)
Definition rank (k : Keyword) : nat :=
  match k with
  | KArchives => 0
  | KAuthors => 1
  | KCategories => 2
  | KTags => 3
  | KComments => 4
  end.

(** The text the second stage searches for: the keyword and the separator. *)
Definition needle (P : util.Paths) (k : Keyword) : string :=
  keywordPath P k ++ "/".

Section Dispatch.

(** [K]: request data carried by the context; [W]: everything a handler
    can act on (the response writer, the data layer). *)
Variables K W : Type.

(** What a run of the dispatcher does, in order: a handler is called with
    the context, or [logger.Infof] is called with the format string [msg]
    and no further argument. *)
Inductive Event : Type :=
| Called (a : Action) (c : gin.Context K)
| Logged (msg : string).

Record State : Type := {
  world : W;
  events : list Event
}.

Variable P : util.Paths.

(** The handlers: arbitrary transformers of the world (they are taken to
    return). *)
Variable handle : Action -> gin.Context K -> W -> W.

(** A call [h(c)] of a handler. *)
Definition call (a : Action) (c : gin.Context K) (s : State) : State :=
  {| world := handle a c (world s); events := events s ++ [Called a c] |}.

(** [logger.Infof(msg)] *)
Definition Infof (msg : string) (s : State) : State :=
  {| world := world s; events := events s ++ [Logged msg] |}.

(** [routePath], lines 174-235: the [switch] on the route path, whose
    cases return after their call, then the five [if] statements, which
    return as well, then the log line. *)
Definition routePath (c : gin.Context K) (s : State) : State :=
  let path := gin.Param c "path" in
  if path =? util.PathActivities P then call showActivitiesAction c s
  else if path =? util.PathArchives P then call showArchivesAction c s
  else if path =? util.PathAuthors P then call showAuthorsAction c s
  else if path =? util.PathCategories P then call showCategoriesAction c s
  else if path =? util.PathTags P then call showTagsAction c s
  else if path =? util.PathComments P then call addCommentAction c s
  else if path =? util.PathAtom P then call outputAtomAction c s
  else if strings.Contains path (util.PathArchives P ++ "/")
    then call showArchiveArticlesAction c s
  else if strings.Contains path (util.PathAuthors P ++ "/")
    then call showAuthorArticlesAction c s
  else if strings.Contains path (util.PathCategories P ++ "/")
    then call showCategoryArticlesArticlesAction c s
  else if strings.Contains path (util.PathTags P ++ "/")
    then call showTagArticlesAction c s
  else if strings.Contains path (util.PathComments P ++ "/")
    then call getRepliesAction c s
  else Infof ("can't handle path [" ++ path ++ "]") s.

(** The events added between two states of one run. *)
Definition emitted (s s' : State) : list Event :=
  skipn (length (events s)) (events s').

(** The View Kind an event stands for. *)
Definition kindOf (e : Event) : ViewKind :=
  match e with
  | Called a _ => viewKind a
  | Logged _ => Unhandled
  end.

(** The handlers called among some events. *)
Definition calls (l : list Event) : list Action :=
  flat_map (fun e => match e with Called a _ => [a] | Logged _ => [] end) l.

End Dispatch.

Arguments Called {K} a c.
Arguments Logged {K} msg.
Arguments world {K W} s.
Arguments events {K W} s.
Arguments routePath {K W} P handle c s.
Arguments call {K W} handle a c s.
Arguments Infof {K W} msg s.
Arguments emitted {K W} s s'.
Arguments kindOf {K} e.
Arguments calls {K} l.

(** The keywords in the order of the second stage, and the first of them
    whose keyword and separator occur in the route path. *)
Definition keywords : list Keyword :=
  [KArchives; KAuthors; KCategories; KTags; KComments].

Definition firstKeyword (P : util.Paths) (path : string) : option Keyword :=
  find (fun k => strings.Contains path (needle P k)) keywords.

(** A request for the route path [path], with nothing else in its context. *)
Definition request (path : string) : gin.Context unit :=
  {| gin.Params := [("username", "alice"); ("path", path)]; gin.Keys := tt |}.

(** Handlers that leave the world as it is. *)
Definition idle {K W : Type} (a : Action) (c : gin.Context K) (w : W) : W := w.

(** A world holding only the status of the response; gin starts a response
    with status 200. *)
Definition fresh : State unit Z := {| world := 200%Z; events := [] |}.

(** Two requests for one route path that differ in everything else: the
    blog, the viewer and the order of the parameters. *)
Definition aliceAnonymous : gin.Context string :=
  {| gin.Params := [("username", "alice"); ("path", "tags/golang")];
     gin.Keys := "anonymous" |}.

Definition bobAdmin : gin.Context string :=
  {| gin.Params := [("path", "tags/golang"); ("username", "bob")];
     gin.Keys := "admin" |}.

(** ** The blog route group of [MapRoutes] *)

Section BlogGroup.

Variables K W : Type.
Variable P : util.Paths.
Variable handle : Action -> gin.Context K -> W -> W.

(** The state of a request within a chain of handlers: gin stops calling
    the handlers of the chain once one of them has aborted the context. *)
Record Request : Type := {
  state : State K W;
  aborted : bool
}.

(** [gin.HandlerFunc] *)
Definition HandlerFunc : Type := gin.Context K -> Request -> Request.

(** gin calls the handlers of a route in their order, as long as the
    context is not aborted. *)
Fixpoint serve (hs : list HandlerFunc) (c : gin.Context K) (r : Request)
  : Request :=
  match hs with
  | [] => r
  | h :: hs' => if aborted r then r else serve hs' c (h c r)
  end.

(** A handler of the package, which acts on the state and does not abort. *)
Definition action (h : gin.Context K -> State K W -> State K W)
  : HandlerFunc :=
  fun c r => {| state := h c (state r); aborted := aborted r |}.

(** [c.Writer.WriteHeader(code)], on the response that the world holds. *)
Variable WriteHeader : Z -> W -> W.

(** [c.AbortWithStatus(code)] *)
Definition AbortWithStatus (code : Z) (r : Request) : Request :=
  {| state := {| world := WriteHeader code (world (state r));
                 events := events (state r) |};
     aborted := true |}.

(** A router group holds the middleware of its routes; [Group] starts a
    group with the middleware of its parent, [Use] adds middleware and a
    route gets the middleware of its group followed by its handler. *)
Record RouterGroup : Type := { Handlers : list HandlerFunc }.

Definition Group (g : RouterGroup) : RouterGroup :=
  {| Handlers := Handlers g |}.

Definition Use (g : RouterGroup) (middleware : list HandlerFunc)
  : RouterGroup :=
  {| Handlers := Handlers g ++ middleware |}.

Definition route (g : RouterGroup) (relativePath : string) (h : HandlerFunc)
  : string * list HandlerFunc :=
  (relativePath, (Handlers g ++ [h])%list).

(** The blog lookup of the data layer: the blog of a user name, if there is
    one that can be shown; and the attachment of a blog to the request. *)
Variable B : Type.
Variable resolve : string -> W -> option B.
Variable attach : B -> W -> W.

(** Modelled from the spec: [resolveBlog], the Blog Context Resolver, which
    is in another file of package [controller].  Section 4.1: given the
    username segment of the request path it resolves the blog; on success
    it attaches the blog to the request and lets the chain continue; on
    failure (unknown username, blog disabled, lookup error) it
    short-circuits the request with a not-found response. *)
Definition resolveBlog : HandlerFunc :=
  fun c r =>
    match resolve (gin.Param c "username") (world (state r)) with
    | None => AbortWithStatus 404 r
    | Some b =>
        {| state := {| world := attach b (world (state r));
                       events := events (state r) |};
           aborted := aborted r |}
    end.

(** The other handlers that [MapRoutes] puts on the blog routes; they are
    not in router.go and are left arbitrary. *)
Variables Recovery Sessions fillUser showArticlesAction : HandlerFunc.

(** The middleware that precedes the resolver on the blog routes. *)
Definition beforeResolver : list HandlerFunc :=
  [Recovery; Sessions; fillUser].

(** [MapRoutes], restricted to the routes of the blog group (lines 61, 70
    and 148-151): the engine uses [gin.Recovery()] and the sessions
    middleware, the blog group adds [fillUser] and [resolveBlog], and has
    the two routes "" and "/*path". *)
Definition MapRoutes : list (string * list HandlerFunc) :=
  let ret := {| Handlers := [] |} in
  let ret := Use ret [Recovery] in
  let ret := Use ret [Sessions] in
  let themeGroup := Group ret in
  let themeGroup := Use themeGroup [fillUser; resolveBlog] in
  [route themeGroup "" showArticlesAction;
   route themeGroup "/*path" (action (routePath P handle))].

End BlogGroup.

Arguments state {K W} r.
Arguments aborted {K W} r.
Arguments serve {K W} hs c r.
Arguments action {K W} h c r.
Arguments AbortWithStatus {K W} WriteHeader code r.
Arguments resolveBlog {K W} WriteHeader {B} resolve attach c r.
Arguments beforeResolver {K W} Recovery Sessions fillUser.
Arguments MapRoutes {K W} P handle WriteHeader {B} resolve attach
  Recovery Sessions fillUser showArticlesAction.

(** A data layer in which "alice" is the only user with a blog, a response
    writer that keeps the status, and middleware that does nothing. *)
Definition onlyAlice (username : string) (w : Z) : option unit :=
  if username =? "alice" then Some tt else None.

Definition keepStatus (code : Z) (w : Z) : Z := code.

Definition pass : HandlerFunc unit Z := fun c r => r.

Definition malloryTags : gin.Context unit :=
  {| gin.Params := [("username", "mallory"); ("path", "tags")];
     gin.Keys := tt |}.

(** ** The template functions that [MapRoutes] installs *)

Module strconv.

(** [strconv.Itoa(i)]: the decimal text of [i]. *)
Definition Itoa (i : Z) : string := NilZero.string_of_int (Z.to_int i).

End strconv.

Section TemplateFuncs.

(** The values of a dynamic type other than [string]. *)
Variable V : Type.

(** [interface{}]: a string, or a value of another dynamic type (the nil
    interface included); [values[i].(string)] succeeds on the first only. *)
Inductive Value : Type :=
| Str (s : string)
| Other (v : V).

(** [map[string]interface{}]: one entry for a key. *)
Definition Map : Type := list (string * Value).

(** [m[key]], with the flag that says whether the key is present. *)
Fixpoint get (m : Map) (key : string) : option Value :=
  match m with
  | [] => None
  | (k, v) :: m' => if k =? key then Some v else get m' key
  end.

Fixpoint delete (m : Map) (key : string) : Map :=
  match m with
  | [] => []
  | (k, v) :: m' => if k =? key then delete m' key else (k, v) :: delete m' key
  end.

(** [m[key] = value]: the entry of [key] is replaced, or added. *)
Definition assign (m : Map) (key : string) (value : Value) : Map :=
  (key, value) :: delete m key.

(** What a call of the function gives: the two results [(dict, nil)] or
    [(nil, err)], or the run-time panic of an index out of range. *)
Inductive Outcome : Type :=
| Return (dict : Map)
| Error (msg : string)
| Panic.

(** The loop of "dict" (lines 47-53), on the part of [values] from the
    index [i] on: [values[i]] must be a string, [values[i+1]] is read
    without a test of the index. *)
Fixpoint fill (values : list Value) (dict : Map) : Outcome :=
  match values with
  | [] => Return dict
  | Other _ :: _ => Error ""
  | Str key :: rest =>
      match rest with
      | [] => Panic
      | value :: rest' => fill rest' (assign dict key value)
      end
  end.

(** The template function "dict" (lines 42-55). *)
Definition dict (values : list Value) : Outcome :=
  if negb (length values mod 2 =? 0)%nat
  then Error ("len(values) is "
              ++ strconv.Itoa (Z.of_nat (length values mod 2)))
  else fill values [].

(** The elements of [values] at the even indices, which "dict" takes for
    keys. *)
Fixpoint keysOf (values : list Value) : list Value :=
  match values with
  | key :: _ :: rest => key :: keysOf rest
  | rest => rest
  end.

End TemplateFuncs.

Arguments Str {V} s.
Arguments Other {V} v.
Arguments get {V} m key.
Arguments delete {V} m key.
Arguments assign {V} m key value.
Arguments Return {V} dict.
Arguments Error {V} msg.
Arguments Panic {V}.
Arguments fill {V} values dict.
Arguments dict {V} values.
Arguments keysOf {V} values.

(** Go's [int] of [bits] bits: the value an integer result wraps around
    to. *)
Definition wrap (bits z : Z) : Z :=
  ((z + 2 ^ (bits - 1)) mod 2 ^ bits - 2 ^ (bits - 1))%Z.

(** The values of an [int] of [bits] bits. *)
Definition isInt (bits z : Z) : Prop :=
  (- 2 ^ (bits - 1) <= z < 2 ^ (bits - 1))%Z.

(** The template function "minus" (lines 56-58). *)
Definition minus (bits a b : Z) : Z := wrap bits (a - b).

(** ** The session cookie *)

Module sessions.

(** [sessions.Options], the fields that [MapRoutes] sets. *)
Record Options : Type := {
  Path : string;
  MaxAge : Z;
  Secure : bool;
  HttpOnly : bool
}.

End sessions.

(** [util.Conf], the fields that router.go reads. *)
Record Conf : Type := {
  SessionSecret : string;
  SessionMaxAge : Z;
  Server : string;
  RuntimeMode : string
}.

(** The options of the cookie store (lines 64-69). *)
Definition storeOptions (conf : Conf) : sessions.Options :=
  {| sessions.Path := "/";
     sessions.MaxAge := SessionMaxAge conf;
     sessions.Secure := strings.HasPrefix (Server conf) "https";
     sessions.HttpOnly := true |}.

(** ** The static mounts of the themes *)

(** The calls [ret.Static(relativePath, root)] of the loop over
    [theme.Themes] (lines 132-137), as pairs of their arguments. *)
Definition themeStatics (Themes : list string) : list (string * string) :=
  flat_map
    (fun theme =>
       let themePath := "theme/x/" ++ theme in
       [(("/" ++ themePath) ++ "/css", themePath ++ "/css");
        (("/" ++ themePath) ++ "/js", themePath ++ "/js");
        (("/" ++ themePath) ++ "/images", themePath ++ "/images")])
    Themes.

(** ** The route table of [MapRoutes] *)

Module Engine.

Inductive Method : Type := GET | POST | PUT | DELETE | Any.

(** The handlers that [MapRoutes] registers: the middleware, the actions of
    package [controller], [util.HacPaiAPI()] and the actions of package
    [console]. *)
Inductive Handler : Type :=
| Recovery | Sessions | LoginCheck | fillUser | resolveBlog
| initAction | logoutAction | HacPaiAPI | getStatusAction
| showArticlesAction | routePath | showIndexAction | showInitPageAction
| showSearchPageAction
| CheckVersion | ShowAdminPagesAction
| GenArticlesAction
| GetThemesAction | UpdateThemeAction | GetTagsAction
| AddArticleAction | RemoveArticlesAction | GetArticlesAction
| GetArticleAction | RemoveArticleAction | UpdateArticleAction
| GetCommentsAction | RemoveCommentsAction | RemoveCommentAction
| GetCategoriesAction | AddCategoryAction | RemoveCategoryAction
| GetCategoryAction | UpdateCategoryAction
| GetNavigationsAction | GetNavigationAction | UpdateNavigationAction
| AddNavigationAction | RemoveNavigationAction
| GetUsersAction | AddUserAction | GetArticleThumbsAction | MarkdownAction
| BlogSwitchAction
| GetBasicSettingsAction | UpdateBasicSettingsAction
| GetPreferenceSettingsAction | UpdatePreferenceSettingsAction
| GetSignSettingsAction | UpdateSignSettingsAction
| GetI18nSettingsAction | UpdateI18nSettingsAction
| GetFeedSettingsAction | UpdateFeedSettingsAction.

(** The handlers that router.go takes from package [console]. *)
Definition ofConsole (h : Handler) : bool :=
  match h with
  | Recovery | Sessions | fillUser | resolveBlog
  | initAction | logoutAction | HacPaiAPI | getStatusAction
  | showArticlesAction | routePath | showIndexAction | showInitPageAction
  | showSearchPageAction => false
  | _ => true
  end.

(** The path constants of package [util] that the groups are made with. *)
Record Paths : Type := {
  PathAPI : string;
  PathBlogs : string;
  PathAdmin : string;
  PathInit : string;
  PathSearch : string
}.

(** A router group: the relative paths it was made with, from the root on
    (gin joins them into the base path), and its middleware. *)
Record RouterGroup : Type := {
  basePath : list string;
  Handlers : list Handler
}.

(** A registered route: its method, the relative paths from the root on,
    the middleware of its group at the time of the registration and its
    handler; gin runs the middleware and then the handler. *)
Record Route : Type := {
  method : Method;
  path : list string;
  middleware : list Handler;
  handler : Handler
}.

(** [group.Group(relativePath)]: the new group starts with the middleware
    that its parent has at that time. *)
Definition Group (g : RouterGroup) (relativePath : string) : RouterGroup :=
  {| basePath := basePath g ++ [relativePath]; Handlers := Handlers g |}.

(** [group.Use(middleware...)] *)
Definition Use (g : RouterGroup) (mw : list Handler) : RouterGroup :=
  {| basePath := basePath g; Handlers := Handlers g ++ mw |}.

(** [group.GET(relativePath, h)] and the like. *)
Definition handle (g : RouterGroup) (m : Method) (relativePath : string)
  (h : Handler) : Route :=
  {| method := m; path := basePath g ++ [relativePath];
     middleware := Handlers g; handler := h |}.

(** The routes that [MapRoutes] registers with a handler, in the order of
    the source (lines 61-167); the static mounts are left out. *)
Definition MapRoutes (conf : Conf) (P : Paths) : list Route :=
  let ret := {| basePath := []; Handlers := [] |} in
  let ret := Use ret [Recovery] in
  let ret := Use ret [Sessions] in
  let api := Group ret (PathAPI P) in
  [handle api POST "/init" initAction;
   handle api POST "/logout" logoutAction;
   handle api Any "/hp/*apis" HacPaiAPI;
   handle api GET "/status" getStatusAction;
   handle api GET "/check-version" CheckVersion]
  ++
  let consoleGroup := Group api "/console" in
  let consoleGroup := Use consoleGroup [LoginCheck] in
  (if "dev" =? RuntimeMode conf
   then [handle consoleGroup GET "/dev/articles/gen" GenArticlesAction]
   else [])
  ++
  [handle consoleGroup GET "/themes" GetThemesAction;
   handle consoleGroup PUT "/themes/:id" UpdateThemeAction;
   handle consoleGroup GET "/tags" GetTagsAction;
   handle consoleGroup POST "/articles" AddArticleAction;
   handle consoleGroup POST "/articles/batch-delete" RemoveArticlesAction;
   handle consoleGroup GET "/articles" GetArticlesAction;
   handle consoleGroup GET "/articles/:id" GetArticleAction;
   handle consoleGroup DELETE "/articles/:id" RemoveArticleAction;
   handle consoleGroup PUT "/articles/:id" UpdateArticleAction;
   handle consoleGroup GET "/comments" GetCommentsAction;
   handle consoleGroup POST "/comments/batch-delete" RemoveCommentsAction;
   handle consoleGroup DELETE "/comments/:id" RemoveCommentAction;
   handle consoleGroup GET "/categories" GetCategoriesAction;
   handle consoleGroup POST "/categories" AddCategoryAction;
   handle consoleGroup DELETE "/categories/:id" RemoveCategoryAction;
   handle consoleGroup GET "/categories/:id" GetCategoryAction;
   handle consoleGroup PUT "/categories/:id" UpdateCategoryAction;
   handle consoleGroup GET "/navigations" GetNavigationsAction;
   handle consoleGroup GET "/navigations/:id" GetNavigationAction;
   handle consoleGroup PUT "/navigations/:id" UpdateNavigationAction;
   handle consoleGroup POST "/navigations" AddNavigationAction;
   handle consoleGroup DELETE "/navigations/:id" RemoveNavigationAction;
   handle consoleGroup GET "/users" GetUsersAction;
   handle consoleGroup POST "/users" AddUserAction;
   handle consoleGroup GET "/thumbs" GetArticleThumbsAction;
   handle consoleGroup POST "/markdown" MarkdownAction;
   handle consoleGroup POST "/blogs/switch/:id" BlogSwitchAction]
  ++
  let consoleSettingsGroup := Group consoleGroup "/settings" in
  [handle consoleSettingsGroup GET "/basic" GetBasicSettingsAction;
   handle consoleSettingsGroup PUT "/basic" UpdateBasicSettingsAction;
   handle consoleSettingsGroup GET "/preference" GetPreferenceSettingsAction;
   handle consoleSettingsGroup PUT "/preference"
     UpdatePreferenceSettingsAction;
   handle consoleSettingsGroup GET "/sign" GetSignSettingsAction;
   handle consoleSettingsGroup PUT "/sign" UpdateSignSettingsAction;
   handle consoleSettingsGroup GET "/i18n" GetI18nSettingsAction;
   handle consoleSettingsGroup PUT "/i18n" UpdateI18nSettingsAction;
   handle consoleSettingsGroup GET "/feed" GetFeedSettingsAction;
   handle consoleSettingsGroup PUT "/feed" UpdateFeedSettingsAction]
  ++
  let themeGroup := Group ret (PathBlogs P ++ "/:username") in
  let themeGroup := Use themeGroup [fillUser; resolveBlog] in
  [handle themeGroup GET "" showArticlesAction;
   handle themeGroup Any "/*path" routePath]
  ++
  let adminPagesGroup := Group ret (PathAdmin P) in
  let adminPagesGroup := Use adminPagesGroup [fillUser] in
  [handle adminPagesGroup GET "/*path" ShowAdminPagesAction]
  ++
  let indexGroup := Group ret "" in
  let indexGroup := Use indexGroup [fillUser] in
  [handle indexGroup GET "" showIndexAction]
  ++
  let initGroup := Group ret (PathInit P) in
  let initGroup := Use initGroup [fillUser] in
  [handle initGroup GET "" showInitPageAction]
  ++
  let searchGroup := Group ret (PathSearch P) in
  let searchGroup := Use searchGroup [fillUser] in
  [handle searchGroup GET "" showSearchPageAction].

End Engine.

(** A configuration and root paths for the examples. *)
Definition devConf : Conf :=
  {| SessionSecret := "secret"; SessionMaxAge := 86400;
     Server := "https://pipe.example.org"; RuntimeMode := "dev" |}.

Definition rootPaths : Engine.Paths :=
  {| Engine.PathAPI := "/api"; Engine.PathBlogs := "/blogs";
     Engine.PathAdmin := "/admin"; Engine.PathInit := "/init";
     Engine.PathSearch := "/search" |}.

(** * Properties *)

(** ** Strings *)

Lemma HasPrefix_app (p r : string) : strings.HasPrefix (p ++ r) p = true.
Proof.
  unfold strings.HasPrefix.
  induction p as [|a p IH]; simpl.
  - destruct r; reflexivity.
  - destruct (ascii_dec a a) as [_|n]; [exact IH | now elim n].
Qed.

Lemma HasPrefix_Contains (s sub : string) :
  strings.HasPrefix s sub = true -> strings.Contains s sub = true.
Proof.
  intros H. destruct s; cbn [strings.Contains]; rewrite H; reflexivity.
Qed.

Lemma Contains_app (a sub b : string) :
  strings.Contains (a ++ sub ++ b) sub = true.
Proof.
  induction a as [|x a IH].
  - cbn [append]. apply HasPrefix_Contains, HasPrefix_app.
  - cbn [append strings.Contains]. rewrite IH. apply orb_true_r.
Qed.

Lemma HasPrefix_inv (s p : string) :
  strings.HasPrefix s p = true -> exists r, s = p ++ r.
Proof.
  unfold strings.HasPrefix. revert s.
  induction p as [|a p IH]; intros s H.
  - exists s. reflexivity.
  - destruct s as [|b s]; simpl in H; [discriminate|].
    destruct (ascii_dec a b) as [->|]; [|discriminate].
    destruct (IH s H) as [r ->]. exists r. reflexivity.
Qed.

Lemma Contains_inv (s sub : string) :
  strings.Contains s sub = true -> exists a b, s = a ++ sub ++ b.
Proof.
  induction s as [|x s IH]; cbn [strings.Contains]; intros H.
  - rewrite orb_false_r in H. apply HasPrefix_inv in H as [r ->].
    exists "", r. reflexivity.
  - apply orb_true_iff in H as [H|H].
    + apply HasPrefix_inv in H as [r ->]. exists "", r. reflexivity.
    + destruct (IH H) as (a & b & ->). exists (String x a), b. reflexivity.
Qed.

(** [strings.Contains] is the substring relation. *)
Lemma Contains_spec (s sub : string) :
  strings.Contains s sub = true <-> exists a b, s = a ++ sub ++ b.
Proof.
  split; [apply Contains_inv | intros (a & b & ->); apply Contains_app].
Qed.


Lemma append_assoc (a b c : string) : (a ++ b) ++ c = a ++ b ++ c.
Proof.
  induction a as [|x a IH]; cbn [append]; [reflexivity | now rewrite IH].
Qed.

Lemma HasPrefix_refl (s : string) : strings.HasPrefix s s = true.
Proof.
  unfold strings.HasPrefix. induction s as [|x s IH]; cbn [prefix].
  - reflexivity.
  - destruct (ascii_dec x x) as [_|n]; [exact IH | now elim n].
Qed.

(** ** The two stages of [routePath] *)

Section Stages.

Variables K W : Type.
Variable P : util.Paths.
Variable handle : Action -> gin.Context K -> W -> W.

Lemma emitted_app (s s' : State K W) (l : list (Event K)) :
  events s' = (events s ++ l)%list -> emitted s s' = l.
Proof.
  unfold emitted. intros ->.
  induction (events s) as [|x xs IH]; [reflexivity | exact IH].
Qed.

Lemma emitted_call (a : Action) (c : gin.Context K) (s : State K W) :
  emitted s (call handle a c s) = [Called a c].
Proof. apply emitted_app. reflexivity. Qed.

Lemma emitted_Infof (msg : string) (s : State K W) :
  emitted s (Infof msg s) = [Logged msg].
Proof. apply emitted_app. reflexivity. Qed.

(** First stage: the [switch] takes the case of the entry the route path is
    equal to. *)
Lemma routePath_stage1 (e : Entry) (c : gin.Context K) (s : State K W) :
  distinctEntries P ->
  gin.Param c "path" = entryPath P e ->
  routePath P handle c s = call handle (entryAction e) c s.
Proof.
  intros HP Hpath. unfold routePath. rewrite Hpath.
  destruct (String.eqb_spec (entryPath P e) (util.PathActivities P)) as [E|N0];
    [apply (HP e EActivities) in E; subst e; reflexivity|].
  destruct (String.eqb_spec (entryPath P e) (util.PathArchives P)) as [E|N1];
    [apply (HP e EArchives) in E; subst e; reflexivity|].
  destruct (String.eqb_spec (entryPath P e) (util.PathAuthors P)) as [E|N2];
    [apply (HP e EAuthors) in E; subst e; reflexivity|].
  destruct (String.eqb_spec (entryPath P e) (util.PathCategories P)) as [E|N3];
    [apply (HP e ECategories) in E; subst e; reflexivity|].
  destruct (String.eqb_spec (entryPath P e) (util.PathTags P)) as [E|N4];
    [apply (HP e ETags) in E; subst e; reflexivity|].
  destruct (String.eqb_spec (entryPath P e) (util.PathComments P)) as [E|N5];
    [apply (HP e EComments) in E; subst e; reflexivity|].
  destruct (String.eqb_spec (entryPath P e) (util.PathAtom P)) as [E|N];
    [apply (HP e EAtom) in E; subst e; reflexivity|].
  destruct e; cbn [entryPath] in *; congruence.
Qed.

(** Second stage and fallback: when the route path is none of the entries,
    the handler is that of the first keyword found anywhere in the path,
    and the path is logged when there is none. *)
Lemma routePath_stage2 (c : gin.Context K) (s : State K W) :
  isExact P (gin.Param c "path") = false ->
  routePath P handle c s =
  match firstKeyword P (gin.Param c "path") with
  | Some k => call handle (filteredAction k) c s
  | None => Infof ("can't handle path [" ++ gin.Param c "path" ++ "]") s
  end.
Proof.
  unfold isExact, util.exactPaths. cbn [existsb]. intros H.
  repeat (apply orb_false_iff in H as [?E H]).
  unfold routePath. rewrite E, E0, E1, E2, E3, E4, E5.
  unfold firstKeyword, keywords, needle. cbn [find keywordPath].
  repeat match goal with
         | |- context [strings.Contains ?a ?b] =>
             destruct (strings.Contains a b); [reflexivity|]
         end.
  reflexivity.
Qed.

Lemma firstKeyword_Some (path : string) (k : Keyword) :
  firstKeyword P path = Some k <->
  strings.Contains path (needle P k) = true /\
  forall k', rank k' < rank k -> strings.Contains path (needle P k') = false.
Proof.
  unfold firstKeyword, keywords. cbn [find]. split.
  - intros H.
    repeat match type of H with
           | (if ?b then _ else _) = _ => destruct b eqn:?
           end;
      try discriminate; injection H as <-; (split; [assumption|]);
      intros k' Hk'; destruct k'; cbn [rank] in Hk'; try lia; assumption.
  - intros [Hk Hlt].
    assert (Hf : forall k', (rank k' <? rank k)%nat = true ->
                       strings.Contains path (needle P k') = false)
      by (intros k' Hk'; apply Hlt, Nat.ltb_lt, Hk').
    destruct k;
      repeat match goal with
             | |- context [strings.Contains path (needle P ?x)] =>
                 first [rewrite (Hf x) by reflexivity | rewrite Hk]
             end; reflexivity.
Qed.

Lemma firstKeyword_None (path : string) :
  firstKeyword P path = None <->
  forall k, strings.Contains path (needle P k) = false.
Proof.
  unfold firstKeyword, keywords. cbn [find]. split.
  - intros H k.
    repeat match type of H with
           | (if ?b then _ else _) = _ => destruct b eqn:?
           end;
      try discriminate. destruct k; assumption.
  - intros H.
    rewrite (H KArchives), (H KAuthors), (H KCategories), (H KTags),
      (H KComments). reflexivity.
Qed.


(** Whatever the table, a route path equal to an entry makes the [switch]
    call the handler of some entry. *)
Lemma routePath_exact_some (c : gin.Context K) :
  isExact P (gin.Param c "path") = true ->
  exists e, forall s, routePath P handle c s = call handle (entryAction e) c s.
Proof.
  unfold isExact, util.exactPaths, routePath. cbn [existsb]. intros H.
  destruct (gin.Param c "path" =? util.PathActivities P);
    [now exists EActivities|].
  destruct (gin.Param c "path" =? util.PathArchives P);
    [now exists EArchives|].
  destruct (gin.Param c "path" =? util.PathAuthors P);
    [now exists EAuthors|].
  destruct (gin.Param c "path" =? util.PathCategories P);
    [now exists ECategories|].
  destruct (gin.Param c "path" =? util.PathTags P);
    [now exists ETags|].
  destruct (gin.Param c "path" =? util.PathComments P);
    [now exists EComments|].
  destruct (gin.Param c "path" =? util.PathAtom P);
    [now exists EAtom|].
  discriminate H.
Qed.

(** One run of [routePath] is one step that the context alone fixes: the
    call of one handler, or one line of log. *)
Lemma routePath_one_step (c : gin.Context K) :
  (exists a, forall s, routePath P handle c s = call handle a c s) \/
  (forall s, routePath P handle c s =
             Infof ("can't handle path [" ++ gin.Param c "path" ++ "]") s).
Proof.
  destruct (isExact P (gin.Param c "path")) eqn:Hx.
  - left. destruct (routePath_exact_some c Hx) as [e He].
    exists (entryAction e). exact He.
  - destruct (firstKeyword P (gin.Param c "path")) as [k|] eqn:Hk.
    + left. exists (filteredAction k). intros s.
      rewrite routePath_stage2, Hk by exact Hx. reflexivity.
    + right. intros s.
      rewrite routePath_stage2, Hk by exact Hx. reflexivity.
Qed.

End Stages.


Lemma filtered_not_Unhandled (k : Keyword) :
  viewKind (filteredAction k) <> Unhandled.
Proof. destruct k; discriminate. Qed.

Lemma entry_not_filtered (e : Entry) (k : Keyword) :
  entryAction e <> filteredAction k.
Proof. destruct e, k; discriminate. Qed.

Lemma specPaths_distinct : distinctEntries util.specPaths.
Proof.
  intros e1 e2. destruct e1, e2; cbn [entryPath util.specPaths
    util.PathActivities util.PathArchives util.PathAuthors
    util.PathCategories util.PathTags util.PathComments util.PathAtom];
    intros H; try reflexivity; discriminate H.
Qed.

(** ** Examples on the table of the specification *)

Example routePath_tags :
  routePath util.specPaths idle (request "tags") fresh
  = {| world := 200%Z; events := [Called showTagsAction (request "tags")] |}.
Proof. reflexivity. Qed.

Example routePath_tags_golang :
  events (routePath util.specPaths idle (request "tags/golang") fresh)
  = [Called showTagArticlesAction (request "tags/golang")].
Proof. reflexivity. Qed.

(** ** The claims *)

(** C2. A route path equal to one of the seven fixed entries (Activities,
    Archives, Authors, Categories, Tags, Comments, AtomFeed) makes the
    dispatcher call the handler of that entry and nothing else: the handler
    receives the request context as it is, no remainder is handed over, and
    the run ends there (one event, the View Kind of the entry). *)
Theorem exact_entry_selects_its_view
  {K W : Type} (P : util.Paths) (handle : Action -> gin.Context K -> W -> W)
  (e : Entry) (c : gin.Context K) (s : State K W) :
  distinctEntries P ->
  gin.Param c "path" = entryPath P e ->
  routePath P handle c s =
    {| world := handle (entryAction e) c (world s);
       events := events s ++ [Called (entryAction e) c] |}
  /\ map kindOf (emitted s (routePath P handle c s))
     = [viewKind (entryAction e)].
Proof.
  intros HP Hpath.
  rewrite (routePath_stage1 K W P handle e c s HP Hpath).
  split; [reflexivity|]. rewrite emitted_call. reflexivity.
Qed.

Lemma exact_entry_selects_its_view_witness :
  distinctEntries util.specPaths /\
  gin.Param (request "tags") "path" = entryPath util.specPaths ETags /\
  routePath util.specPaths idle (request "tags") fresh =
    {| world := 200%Z; events := [Called showTagsAction (request "tags")] |}
  /\ map kindOf (emitted fresh
                   (routePath util.specPaths idle (request "tags") fresh))
     = [Tags].
Proof.
  split; [exact specPaths_distinct|]. split; [reflexivity|].
  exact (exact_entry_selects_its_view util.specPaths idle ETags
           (request "tags") fresh specPaths_distinct eq_refl).
Defined.

(** C4. Exact match comes before the search for keywords: a route path
    equal to a bare keyword selects the listing view of that keyword, and
    no filtered view is called, whatever the keyword.  The path "archives"
    selects Archives, never ArchiveArticles. *)
Theorem bare_keyword_selects_listing
  {K W : Type} (P : util.Paths) (handle : Action -> gin.Context K -> W -> W)
  (k : Keyword) (c : gin.Context K) (s : State K W) :
  distinctEntries P ->
  gin.Param c "path" = keywordPath P k ->
  emitted s (routePath P handle c s) = [Called (entryAction (bareEntry k)) c]
  /\ forall k', ~ In (filteredAction k')
                     (calls (emitted s (routePath P handle c s))).
Proof.
  intros HP Hpath.
  assert (Hp : gin.Param c "path" = entryPath P (bareEntry k))
    by (rewrite Hpath; destruct k; reflexivity).
  rewrite (routePath_stage1 K W P handle _ c s HP Hp), emitted_call.
  split; [reflexivity|].
  intros k' [H|[]]. exact (entry_not_filtered _ _ H).
Qed.

Lemma bare_keyword_selects_listing_witness :
  distinctEntries util.specPaths /\
  gin.Param (request "archives") "path" = keywordPath util.specPaths KArchives
  /\ emitted fresh (routePath util.specPaths idle (request "archives") fresh)
     = [Called showArchivesAction (request "archives")]
  /\ forall k', ~ In (filteredAction k')
       (calls (emitted fresh
                 (routePath util.specPaths idle (request "archives") fresh))).
Proof.
  split; [exact specPaths_distinct|]. split; [reflexivity|].
  exact (bare_keyword_selects_listing util.specPaths idle KArchives
           (request "archives") fresh specPaths_distinct eq_refl).
Defined.

(** C9. A route path made of a keyword and the separator with nothing
    after it (such as "tags/") is not Unhandled: the dispatcher calls the
    filtered view of the keyword (TagArticles for "tags/"), with the
    context of the request, whose path has nothing left after the
    separator.  The two conditions on the table say that keyword and
    separator are no entry of the first stage and contain no keyword and
    separator that is tested earlier. *)
Theorem keyword_and_separator_selects_filtered
  {K W : Type} (P : util.Paths) (handle : Action -> gin.Context K -> W -> W)
  (k : Keyword) (c : gin.Context K) (s : State K W) :
  isExact P (needle P k) = false ->
  (forall k', rank k' < rank k ->
              strings.Contains (needle P k) (needle P k') = false) ->
  gin.Param c "path" = keywordPath P k ++ "/" ->
  routePath P handle c s =
    {| world := handle (filteredAction k) c (world s);
       events := events s ++ [Called (filteredAction k) c] |}
  /\ map kindOf (emitted s (routePath P handle c s))
     = [viewKind (filteredAction k)]
  /\ viewKind (filteredAction k) <> Unhandled.
Proof.
  intros Hx Hlt Hpath. fold (needle P k) in Hpath.
  assert (Hk : firstKeyword P (gin.Param c "path") = Some k).
  { apply firstKeyword_Some. rewrite Hpath. split; [|exact Hlt].
    apply HasPrefix_Contains, HasPrefix_refl. }
  rewrite routePath_stage2, Hk by (rewrite Hpath; exact Hx).
  split; [reflexivity|]. rewrite emitted_call.
  split; [reflexivity | apply filtered_not_Unhandled].
Qed.

Lemma keyword_and_separator_selects_filtered_witness :
  isExact util.specPaths (needle util.specPaths KTags) = false /\
  (forall k', rank k' < rank KTags ->
     strings.Contains (needle util.specPaths KTags)
                      (needle util.specPaths k') = false) /\
  gin.Param (request "tags/") "path" = keywordPath util.specPaths KTags ++ "/"
  /\ routePath util.specPaths idle (request "tags/") fresh =
       {| world := 200%Z;
          events := [Called showTagArticlesAction (request "tags/")] |}
  /\ map kindOf (emitted fresh
                   (routePath util.specPaths idle (request "tags/") fresh))
     = [TagArticles]
  /\ TagArticles <> Unhandled.
Proof.
  assert (H : forall k', rank k' < rank KTags ->
     strings.Contains (needle util.specPaths KTags)
                      (needle util.specPaths k') = false).
  { intros k' Hk'. destruct k'; try reflexivity; cbn [rank] in Hk'; lia. }
  split; [reflexivity|]. split; [exact H|]. split; [reflexivity|].
  exact (keyword_and_separator_selects_filtered util.specPaths idle KTags
           (request "tags/") fresh eq_refl H eq_refl).
Defined.

(** The five keyword-and-separator inputs on the table of the
    specification. *)
Example routePath_bare_prefixes :
  map (fun k => calls (events (routePath util.specPaths idle
                                 (request (needle util.specPaths k)) fresh)))
      keywords
  = [[showArchiveArticlesAction]; [showAuthorArticlesAction];
     [showCategoryArticlesArticlesAction]; [showTagArticlesAction];
     [getRepliesAction]].
Proof. reflexivity. Qed.

(** C3, as amended.  A route path "<keyword>/<rest>" that is no entry of
    the first stage, and in which no keyword tested earlier (in the order
    Archives, Authors, Categories, Tags, Comments) occurs followed by the
    separator, makes the dispatcher call the filtered view of the keyword,
    with the context of the request, whose path carries <rest> after the
    separator. *)
Theorem keyword_prefix_selects_filtered
  {K W : Type} (P : util.Paths) (handle : Action -> gin.Context K -> W -> W)
  (k : Keyword) (rest : string) (c : gin.Context K) (s : State K W) :
  gin.Param c "path" = keywordPath P k ++ "/" ++ rest ->
  isExact P (gin.Param c "path") = false ->
  (forall k', rank k' < rank k ->
              strings.Contains (gin.Param c "path") (needle P k') = false) ->
  routePath P handle c s =
    {| world := handle (filteredAction k) c (world s);
       events := events s ++ [Called (filteredAction k) c] |}
  /\ map kindOf (emitted s (routePath P handle c s))
     = [viewKind (filteredAction k)].
Proof.
  intros Hpath Hx Hlt.
  assert (Hk : firstKeyword P (gin.Param c "path") = Some k).
  { apply firstKeyword_Some. split; [|exact Hlt].
    rewrite Hpath, <- append_assoc. fold (needle P k).
    apply HasPrefix_Contains, HasPrefix_app. }
  rewrite routePath_stage2, Hk by exact Hx.
  split; [reflexivity|]. rewrite emitted_call. reflexivity.
Qed.

Lemma keyword_prefix_selects_filtered_witness :
  gin.Param (request "comments/42") "path"
    = keywordPath util.specPaths KComments ++ "/" ++ "42" /\
  isExact util.specPaths (gin.Param (request "comments/42") "path") = false /\
  (forall k', rank k' < rank KComments ->
     strings.Contains (gin.Param (request "comments/42") "path")
                      (needle util.specPaths k') = false) /\
  routePath util.specPaths idle (request "comments/42") fresh =
    {| world := 200%Z;
       events := [Called getRepliesAction (request "comments/42")] |}
  /\ map kindOf (emitted fresh
       (routePath util.specPaths idle (request "comments/42") fresh))
     = [CommentReplies].
Proof.
  assert (H : forall k', rank k' < rank KComments ->
     strings.Contains (gin.Param (request "comments/42") "path")
                      (needle util.specPaths k') = false).
  { intros k' Hk'. destruct k'; try reflexivity.
    cbn [rank] in Hk'. lia. }
  split; [reflexivity|]. split; [reflexivity|]. split; [exact H|].
  exact (keyword_prefix_selects_filtered util.specPaths idle KComments "42"
           (request "comments/42") fresh eq_refl eq_refl H).
Defined.

(** C3, the claim as stated fails: "tags/archives/2017" has the form
    "<prefix>/<rest>" with the prefix "tags" and a non-empty rest, and the
    dispatcher calls the archive view, not the tag view, because
    "archives/" is searched first and anywhere in the path. *)
Lemma tags_archives_selects_archive_view :
  gin.Param (request "tags/archives/2017") "path"
    = keywordPath util.specPaths KTags ++ "/" ++ "archives/2017" /\
  "archives/2017" <> "" /\
  emitted fresh
    (routePath util.specPaths idle (request "tags/archives/2017") fresh)
    = [Called showArchiveArticlesAction (request "tags/archives/2017")] /\
  map kindOf (emitted fresh
    (routePath util.specPaths idle (request "tags/archives/2017") fresh))
    <> [viewKind (filteredAction KTags)].
Proof.
  split; [reflexivity|]. split; [discriminate|].
  split; [reflexivity|]. discriminate.
Qed.


(** The anchoring example of the specification: "tags-extra/foo" does not
    contain "tags/" and is Unhandled. *)
Example routePath_tags_extra :
  events (routePath util.specPaths idle (request "tags-extra/foo") fresh)
  = [Logged "can't handle path [tags-extra/foo]"].
Proof. reflexivity. Qed.


(** C5, as amended.  For a route path that neither stage matches, the
    dispatcher calls no handler, writes the line
    "can't handle path [<path>]" to the logger and returns; it leaves the
    world, the response included, as it found it, so that no not-found
    response is produced by the dispatcher itself. *)
Theorem unmatched_path_is_logged
  {K W : Type} (P : util.Paths) (handle : Action -> gin.Context K -> W -> W)
  (c : gin.Context K) (s : State K W) :
  isExact P (gin.Param c "path") = false ->
  (forall k, strings.Contains (gin.Param c "path") (needle P k) = false) ->
  routePath P handle c s =
    {| world := world s;
       events := events s
                 ++ [Logged ("can't handle path [" ++ gin.Param c "path" ++ "]")]
    |}
  /\ calls (emitted s (routePath P handle c s)) = [].
Proof.
  intros Hx Hno. apply firstKeyword_None in Hno.
  rewrite routePath_stage2, Hno by exact Hx.
  split; [reflexivity|]. rewrite emitted_Infof. reflexivity.
Qed.

Lemma unmatched_path_is_logged_witness :
  isExact util.specPaths (gin.Param (request "nonexistent/segment") "path")
    = false /\
  (forall k, strings.Contains (gin.Param (request "nonexistent/segment") "path")
                              (needle util.specPaths k) = false) /\
  routePath util.specPaths idle (request "nonexistent/segment") fresh =
    {| world := 200%Z;
       events := [Logged "can't handle path [nonexistent/segment]"] |}
  /\ calls (emitted fresh
       (routePath util.specPaths idle (request "nonexistent/segment") fresh))
     = [].
Proof.
  assert (H : forall k,
    strings.Contains (gin.Param (request "nonexistent/segment") "path")
                     (needle util.specPaths k) = false)
    by (intros k; destruct k; reflexivity).
  split; [reflexivity|]. split; [exact H|].
  exact (unmatched_path_is_logged util.specPaths idle
           (request "nonexistent/segment") fresh eq_refl H).
Defined.

(** C5, the claim as stated fails: on the unmatched path
    "nonexistent/segment", with a response that has the status 200 it
    starts with, the dispatcher only logs; the status is still 200
    afterwards and not the 404 of a not-found response. *)
Lemma unmatched_path_gets_no_response :
  routePath util.specPaths idle (request "nonexistent/segment") fresh =
    {| world := 200%Z;
       events := [Logged "can't handle path [nonexistent/segment]"] |}
  /\ world (routePath util.specPaths idle
              (request "nonexistent/segment") fresh) <> 404%Z.
Proof.
  split; [reflexivity | discriminate].
Qed.

(** C6. Every run of the dispatcher adds exactly one event, so at most one
    handler is called for a request (none when the path is Unhandled), and
    the world is changed by that one handler only. *)
Theorem at_most_one_view_per_request
  {K W : Type} (P : util.Paths) (handle : Action -> gin.Context K -> W -> W)
  (c : gin.Context K) (s : State K W) :
  (exists e, events (routePath P handle c s) = (events s ++ [e])%list) /\
  length (calls (emitted s (routePath P handle c s))) <= 1 /\
  world (routePath P handle c s)
  = fold_left (fun w a => handle a c w)
              (calls (emitted s (routePath P handle c s))) (world s).
Proof.
  destruct (routePath_one_step K W P handle c) as [[a Ha]|Hl].
  - rewrite Ha, emitted_call. split; [now exists (Called a c)|].
    split; [apply le_n | reflexivity].
  - rewrite Hl, emitted_Infof. split; [now eexists|].
    split; [apply Nat.le_0_l | reflexivity].
Qed.

(** C7. The dispatcher is deterministic and keeps no state: what it does
    for a context is the same in every state, in particular when the same
    request is dispatched a second time after the first, whatever the
    handler of the first run did to the world; and the dispatcher itself
    changes the world only through the handler it calls. *)
Theorem dispatch_is_stateless
  {K W : Type} (P : util.Paths) (handle : Action -> gin.Context K -> W -> W)
  (c : gin.Context K) :
  (forall s1 s2 : State K W,
     emitted s1 (routePath P handle c s1)
     = emitted s2 (routePath P handle c s2)) /\
  (forall s : State K W,
     emitted (routePath P handle c s)
             (routePath P handle c (routePath P handle c s))
     = emitted s (routePath P handle c s)) /\
  (forall s : State K W,
     calls (emitted s (routePath P handle c s)) = [] ->
     world (routePath P handle c s) = world s).
Proof.
  destruct (routePath_one_step K W P handle c) as [[a Ha]|Hl].
  - repeat split; intros.
    + now rewrite !Ha, !emitted_call.
    + now rewrite !Ha, !emitted_call.
    + rewrite Ha, emitted_call in H. discriminate H.
  - repeat split; intros.
    + now rewrite !Hl, !emitted_Infof.
    + now rewrite !Hl, !emitted_Infof.
    + now rewrite Hl.
Qed.

(** C10. The decision depends on the route path only: two requests with
    the same route path make the dispatcher call the same handler (the same
    View Kind), whatever else differs in their contexts (blog, viewer,
    other parameters) and whatever the state of the world. *)
Theorem decision_depends_on_path_only
  {K W : Type} (P : util.Paths) (handle : Action -> gin.Context K -> W -> W)
  (c1 c2 : gin.Context K) (s1 s2 : State K W) :
  gin.Param c1 "path" = gin.Param c2 "path" ->
  calls (emitted s1 (routePath P handle c1 s1))
  = calls (emitted s2 (routePath P handle c2 s2)) /\
  map kindOf (emitted s1 (routePath P handle c1 s1))
  = map kindOf (emitted s2 (routePath P handle c2 s2)).
Proof.
  intros Hpath.
  destruct (isExact P (gin.Param c1 "path")) eqn:Hx.
  - unfold routePath. rewrite <- Hpath.
    unfold isExact, util.exactPaths in Hx. cbn [existsb] in Hx.
    repeat match goal with
           | |- context [gin.Param c1 "path" =? ?x] =>
               destruct (gin.Param c1 "path" =? x);
               [rewrite !emitted_call; split; reflexivity|]
           end.
    discriminate Hx.
  - rewrite !routePath_stage2 by (rewrite <- ?Hpath; exact Hx).
    rewrite <- Hpath.
    destruct (firstKeyword P (gin.Param c1 "path")).
    + rewrite !emitted_call. split; reflexivity.
    + rewrite !emitted_Infof. split; reflexivity.
Qed.

Lemma decision_depends_on_path_only_witness :
  gin.Param aliceAnonymous "path" = gin.Param bobAdmin "path" /\
  calls (emitted {| world := 200%Z; events := [] |}
           (routePath util.specPaths idle aliceAnonymous
              {| world := 200%Z; events := [] |}))
  = calls (emitted {| world := 404%Z; events := [Logged "earlier"] |}
             (routePath util.specPaths idle bobAdmin
                {| world := 404%Z; events := [Logged "earlier"] |})) /\
  map kindOf (emitted {| world := 200%Z; events := [] |}
                (routePath util.specPaths idle aliceAnonymous
                   {| world := 200%Z; events := [] |}))
  = map kindOf (emitted {| world := 404%Z; events := [Logged "earlier"] |}
                  (routePath util.specPaths idle bobAdmin
                     {| world := 404%Z; events := [Logged "earlier"] |})).
Proof.
  split; [reflexivity|].
  exact (decision_depends_on_path_only util.specPaths idle
           aliceAnonymous bobAdmin
           {| world := 200%Z; events := [] |}
           {| world := 404%Z; events := [Logged "earlier"] |} eq_refl).
Defined.

(** ** The resolver in front of the dispatcher *)

Section Gate.

Variables K W B : Type.
Variable P : util.Paths.
Variable handle : Action -> gin.Context K -> W -> W.
Variable WriteHeader : Z -> W -> W.
Variable resolve : string -> W -> option B.
Variable attach : B -> W -> W.

Lemma serve_aborted (hs : list (HandlerFunc K W)) (c : gin.Context K)
  (r : Request K W) :
  aborted r = true -> serve hs c r = r.
Proof. intros H. destruct hs; cbn [serve]; [|rewrite H]; reflexivity. Qed.

Lemma serve_app (hs hs' : list (HandlerFunc K W)) (c : gin.Context K)
  (r : Request K W) :
  serve (hs ++ hs') c r = serve hs' c (serve hs c r).
Proof.
  revert r. induction hs as [|h hs IH]; intros r; cbn [serve app].
  - reflexivity.
  - destruct (aborted r) eqn:Ha; [|apply IH].
    symmetry. apply serve_aborted, Ha.
Qed.

(** When the lookup fails, the resolver and whatever handler follows it
    leave an aborted request with the status 404 and no new event. *)
Lemma serve_resolver_fails (h : HandlerFunc K W) (c : gin.Context K)
  (r : Request K W) :
  aborted r = false ->
  resolve (gin.Param c "username") (world (state r)) = None ->
  serve [resolveBlog WriteHeader resolve attach; h] c r
  = AbortWithStatus WriteHeader 404 r.
Proof.
  intros Ha Hr. cbn [serve]. rewrite Ha.
  unfold resolveBlog at 1 2. rewrite Hr. reflexivity.
Qed.

End Gate.

(** C8. On every route of the blog group the resolver stands directly in
    front of the final handler (the article list or the dispatcher), after
    the middleware [Recovery], [Sessions] and [fillUser].  When the request
    reaches the resolver and the lookup of the user name fails, the request
    is aborted with the status 404 and nothing runs after the resolver: the
    state is the one the preceding middleware left, with the status
    written, and no event of the dispatcher or of a handler is added. *)
Theorem resolver_failure_stops_dispatch
  {K W B : Type} (P : util.Paths) (handle : Action -> gin.Context K -> W -> W)
  (WriteHeader : Z -> W -> W) (resolve : string -> W -> option B)
  (attach : B -> W -> W)
  (Recovery Sessions fillUser showArticlesAction : HandlerFunc K W)
  (rt : string * list (HandlerFunc K W)) (c : gin.Context K)
  (r : Request K W) :
  In rt (MapRoutes P handle WriteHeader resolve attach
           Recovery Sessions fillUser showArticlesAction) ->
  aborted (serve (beforeResolver Recovery Sessions fillUser) c r) = false ->
  resolve (gin.Param c "username")
          (world (state (serve (beforeResolver Recovery Sessions fillUser)
                           c r))) = None ->
  (exists h, snd rt = (beforeResolver Recovery Sessions fillUser
                       ++ [resolveBlog WriteHeader resolve attach; h])%list) /\
  serve (snd rt) c r
  = AbortWithStatus WriteHeader 404
      (serve (beforeResolver Recovery Sessions fillUser) c r) /\
  events (state (serve (snd rt) c r))
  = events (state (serve (beforeResolver Recovery Sessions fillUser) c r)).
Proof.
  intros Hin Ha Hr.
  assert (Hsh : exists h, snd rt = (beforeResolver Recovery Sessions fillUser
                      ++ [resolveBlog WriteHeader resolve attach; h])%list).
  { destruct Hin as [<-|[<-|[]]]; eexists; reflexivity. }
  split; [exact Hsh|]. destruct Hsh as [h ->].
  rewrite serve_app, (serve_resolver_fails K W B WriteHeader resolve attach)
    by assumption.
  split; reflexivity.
Qed.

Lemma resolver_failure_stops_dispatch_witness :
  In ("/*path", [pass; pass; pass; resolveBlog keepStatus onlyAlice (fun _ w => w);
                 action (routePath util.specPaths idle)])
     (MapRoutes util.specPaths idle keepStatus onlyAlice (fun _ w => w)
        pass pass pass pass) /\
  aborted (serve (beforeResolver pass pass pass) malloryTags
             {| state := fresh; aborted := false |}) = false /\
  onlyAlice (gin.Param malloryTags "username")
    (world (state (serve (beforeResolver pass pass pass) malloryTags
                     {| state := fresh; aborted := false |}))) = None /\
  serve [pass; pass; pass; resolveBlog keepStatus onlyAlice (fun _ w => w);
         action (routePath util.specPaths idle)]
        malloryTags {| state := fresh; aborted := false |}
  = {| state := {| world := 404%Z; events := [] |}; aborted := true |}.
Proof.
  assert (Hin : In ("/*path",
                    [pass; pass; pass;
                     resolveBlog keepStatus onlyAlice (fun _ w => w);
                     action (routePath util.specPaths idle)])
     (MapRoutes util.specPaths idle keepStatus onlyAlice (fun _ w => w)
        pass pass pass pass)) by (right; left; reflexivity).
  split; [exact Hin|]. split; [reflexivity|]. split; [reflexivity|].
  exact (proj1 (proj2 (resolver_failure_stops_dispatch util.specPaths idle
           keepStatus onlyAlice (fun _ w => w) pass pass pass pass _
           malloryTags {| state := fresh; aborted := false |}
           Hin eq_refl eq_refl))).
Defined.

(** With a user name that resolves, the same chain reaches the dispatcher. *)
Example alice_tags_is_dispatched :
  events (state (serve
    [pass; pass; pass; resolveBlog keepStatus onlyAlice (fun _ w => w);
     action (routePath util.specPaths idle)]
    (request "tags") {| state := fresh; aborted := false |}))
  = [Called showTagsAction (request "tags")].
Proof. reflexivity. Qed.

(** * Further properties of router.go *)

(** ** What [routePath] never does *)

Section Inversion.

Variables K W : Type.
Variable P : util.Paths.
Variable handle : Action -> gin.Context K -> W -> W.

(** The case that the [switch] takes is one whose constant is the route
    path. *)
Lemma routePath_exact_which (c : gin.Context K) :
  isExact P (gin.Param c "path") = true ->
  exists e, gin.Param c "path" = entryPath P e /\
            forall s, routePath P handle c s = call handle (entryAction e) c s.
Proof.
  unfold isExact, util.exactPaths, routePath. cbn [existsb]. intros H.
  destruct (String.eqb_spec (gin.Param c "path") (util.PathActivities P));
    [now exists EActivities|].
  destruct (String.eqb_spec (gin.Param c "path") (util.PathArchives P));
    [now exists EArchives|].
  destruct (String.eqb_spec (gin.Param c "path") (util.PathAuthors P));
    [now exists EAuthors|].
  destruct (String.eqb_spec (gin.Param c "path") (util.PathCategories P));
    [now exists ECategories|].
  destruct (String.eqb_spec (gin.Param c "path") (util.PathTags P));
    [now exists ETags|].
  destruct (String.eqb_spec (gin.Param c "path") (util.PathComments P));
    [now exists EComments|].
  destruct (String.eqb_spec (gin.Param c "path") (util.PathAtom P));
    [now exists EAtom|].
  discriminate H.
Qed.

Lemma entryAction_inj (e e' : Entry) : entryAction e = entryAction e' -> e = e'.
Proof. destruct e, e'; intros H; try reflexivity; discriminate H. Qed.

Lemma filteredAction_inj (k k' : Keyword) :
  filteredAction k = filteredAction k' -> k = k'.
Proof. destruct k, k'; intros H; try reflexivity; discriminate H. Qed.

End Inversion.

(** X1. A handler of the first stage (a listing, the comment submission,
    the feed) is called only for a route path that is equal to the constant
    of its entry: no route path with anything before or after the entry
    reaches it.  In particular [addCommentAction] runs only for the path
    [util.PathComments] itself. *)
Theorem listing_called_only_on_its_entry
  {K W : Type} (P : util.Paths) (handle : Action -> gin.Context K -> W -> W)
  (e : Entry) (c : gin.Context K) (s : State K W) :
  In (entryAction e) (calls (emitted s (routePath P handle c s))) ->
  gin.Param c "path" = entryPath P e.
Proof.
  destruct (isExact P (gin.Param c "path")) eqn:Hx.
  - destruct (routePath_exact_which K W P handle c Hx) as (e' & Hp & He).
    rewrite He, emitted_call. intros [H|[]].
    apply entryAction_inj in H. now subst e'.
  - rewrite routePath_stage2 by exact Hx.
    destruct (firstKeyword P (gin.Param c "path")) as [k|].
    + rewrite emitted_call. intros [H|[]].
      symmetry in H. now apply entry_not_filtered in H.
    + rewrite emitted_Infof. intros [].
Qed.

Lemma listing_called_only_on_its_entry_witness :
  In (entryAction EComments)
     (calls (emitted fresh
               (routePath util.specPaths idle (request "comments") fresh))) /\
  gin.Param (request "comments") "path" = entryPath util.specPaths EComments.
Proof.
  assert (H : In (entryAction EComments)
     (calls (emitted fresh
               (routePath util.specPaths idle (request "comments") fresh))))
    by (left; reflexivity).
  split; [exact H|].
  exact (listing_called_only_on_its_entry util.specPaths idle EComments
           (request "comments") fresh H).
Defined.

(** X2. A filtered view is called only for a route path that is no entry
    of the first stage, that contains the keyword of the view followed by
    the separator (with some text before and after it), and that contains
    no keyword tested earlier followed by the separator. *)
Theorem filtered_called_only_on_its_keyword
  {K W : Type} (P : util.Paths) (handle : Action -> gin.Context K -> W -> W)
  (k : Keyword) (c : gin.Context K) (s : State K W) :
  In (filteredAction k) (calls (emitted s (routePath P handle c s))) ->
  isExact P (gin.Param c "path") = false /\
  (exists before after,
     gin.Param c "path" = before ++ (keywordPath P k ++ "/") ++ after) /\
  forall k', rank k' < rank k ->
    strings.Contains (gin.Param c "path") (needle P k') = false.
Proof.
  destruct (isExact P (gin.Param c "path")) eqn:Hx.
  - destruct (routePath_exact_some K W P handle c Hx) as [e He].
    rewrite He, emitted_call. intros [H|[]].
    now apply entry_not_filtered in H.
  - rewrite routePath_stage2 by exact Hx.
    destruct (firstKeyword P (gin.Param c "path")) as [k'|] eqn:Hk.
    + rewrite emitted_call. intros [H|[]].
      apply filteredAction_inj in H. subst k'.
      apply firstKeyword_Some in Hk as [Hc Hlt].
      split; [reflexivity|]. split; [|exact Hlt].
      apply Contains_spec. exact Hc.
    + rewrite emitted_Infof. intros [].
Qed.

Lemma filtered_called_only_on_its_keyword_witness :
  In (filteredAction KTags)
     (calls (emitted fresh
               (routePath util.specPaths idle (request "tags/golang") fresh)))
  /\ isExact util.specPaths (gin.Param (request "tags/golang") "path") = false
  /\ (exists before after,
        gin.Param (request "tags/golang") "path"
        = before ++ (keywordPath util.specPaths KTags ++ "/") ++ after)
  /\ forall k', rank k' < rank KTags ->
       strings.Contains (gin.Param (request "tags/golang") "path")
                        (needle util.specPaths k') = false.
Proof.
  assert (H : In (filteredAction KTags)
     (calls (emitted fresh
               (routePath util.specPaths idle (request "tags/golang") fresh))))
    by (left; reflexivity).
  split; [exact H|].
  exact (filtered_called_only_on_its_keyword util.specPaths idle KTags
           (request "tags/golang") fresh H).
Defined.

(** X3. The order of the tests decides, not the position in the path: a
    route path that is no entry and contains a keyword followed by the
    separator is never Unhandled, and the view called is that of this
    keyword or of one tested earlier. *)
Theorem earlier_keyword_wins
  {K W : Type} (P : util.Paths) (handle : Action -> gin.Context K -> W -> W)
  (k : Keyword) (before after : string) (c : gin.Context K) (s : State K W) :
  isExact P (gin.Param c "path") = false ->
  gin.Param c "path" = before ++ (keywordPath P k ++ "/") ++ after ->
  exists k', rank k' <= rank k /\
    emitted s (routePath P handle c s) = [Called (filteredAction k') c].
Proof.
  intros Hx Hpath.
  assert (Hc : strings.Contains (gin.Param c "path") (needle P k) = true)
    by (apply Contains_spec; exists before, after; exact Hpath).
  rewrite routePath_stage2 by exact Hx.
  destruct (firstKeyword P (gin.Param c "path")) as [k'|] eqn:Hk.
  - exists k'. rewrite emitted_call. split; [|reflexivity].
    apply firstKeyword_Some in Hk as [_ Hlt].
    destruct (Nat.le_gt_cases (rank k') (rank k)) as [Hle|Hgt];
      [exact Hle|].
    rewrite (Hlt k Hgt) in Hc. discriminate Hc.
  - rewrite (proj1 (firstKeyword_None P _) Hk k) in Hc. discriminate Hc.
Qed.

Lemma earlier_keyword_wins_witness :
  isExact util.specPaths (gin.Param (request "comments/7/archives/") "path")
    = false /\
  gin.Param (request "comments/7/archives/") "path"
    = "" ++ (keywordPath util.specPaths KComments ++ "/") ++ "7/archives/" /\
  exists k', rank k' <= rank KComments /\
    emitted fresh (routePath util.specPaths idle
                     (request "comments/7/archives/") fresh)
    = [Called (filteredAction k') (request "comments/7/archives/")].
Proof.
  split; [reflexivity|]. split; [reflexivity|].
  exact (earlier_keyword_wins util.specPaths idle KComments "" "7/archives/"
           (request "comments/7/archives/") fresh eq_refl eq_refl).
Defined.

(** X4. A request without a route path (no parameter "path", or only
    empty ones) is Unhandled when no constant of the table is empty: no
    handler is called and the line "can't handle path []" is logged. *)
Theorem empty_path_is_unhandled
  {K W : Type} (P : util.Paths) (handle : Action -> gin.Context K -> W -> W)
  (c : gin.Context K) (s : State K W) :
  (forall e, entryPath P e <> "") ->
  (forall value, In ("path", value) (gin.Params c) -> value = "") ->
  routePath P handle c s = Infof "can't handle path []" s.
Proof.
  intros Hne Hpar.
  assert (Hp : gin.Param c "path" = "").
  { unfold gin.Param. induction (gin.Params c) as [|[key value] ps IH];
      [reflexivity|]. cbn [gin.ByName].
    destruct (String.eqb_spec key "path") as [->|_].
    - apply Hpar. left. reflexivity.
    - apply IH. intros v Hv. apply Hpar. right. exact Hv. }
  assert (Hx : isExact P (gin.Param c "path") = false).
  { destruct (isExact P (gin.Param c "path")) eqn:Hx; [|reflexivity].
    destruct (routePath_exact_which K W P handle c Hx) as (e & He & _).
    rewrite Hp in He. symmetry in He. now apply Hne in He. }
  assert (Hk : firstKeyword P (gin.Param c "path") = None).
  { apply firstKeyword_None. intros k. rewrite Hp. unfold needle.
    destruct (keywordPath P k); reflexivity. }
  rewrite routePath_stage2, Hk, Hp by exact Hx. reflexivity.
Qed.

Lemma empty_path_is_unhandled_witness :
  (forall e, entryPath util.specPaths e <> "") /\
  (forall value,
     In ("path", value)
        (gin.Params {| gin.Params := [("username", "alice")];
                       gin.Keys := tt |}) -> value = "") /\
  routePath util.specPaths idle
    {| gin.Params := [("username", "alice")]; gin.Keys := tt |} fresh
  = Infof "can't handle path []" fresh.
Proof.
  assert (H1 : forall e, entryPath util.specPaths e <> "")
    by (intros e; destruct e; discriminate).
  assert (H2 : forall value,
     In ("path", value)
        (gin.Params {| gin.Params := [("username", "alice")];
                       gin.Keys := tt |}) -> value = "").
  { intros value [H|[]]. discriminate H. }
  split; [exact H1|]. split; [exact H2|].
  exact (empty_path_is_unhandled util.specPaths idle _ fresh H1 H2).
Defined.

(** ** The template function "dict" *)

Section DictFacts.

Variable V : Type.

Lemma pairs_ind (Q : list (Value V) -> Prop) :
  Q [] -> (forall x, Q [x]) ->
  (forall x y l, Q l -> Q (x :: y :: l)) ->
  forall l, Q l.
Proof.
  intros H0 H1 H2.
  assert (H : forall l, Q l /\ forall x, Q (x :: l)).
  { induction l as [|y l [IH IH']]; split; auto. }
  intros l. apply H.
Qed.

Lemma get_delete (m : Map V) (key key' : string) :
  get (delete m key) key' = if key =? key' then None else get m key'.
Proof.
  induction m as [|[k v] m IH]; cbn [delete get].
  - now destruct (key =? key').
  - destruct (String.eqb_spec k key) as [->|Hk].
    + rewrite IH. destruct (String.eqb_spec key key'); reflexivity.
    + cbn [get]. rewrite IH.
      destruct (String.eqb_spec k key') as [->|]; [|reflexivity].
      destruct (String.eqb_spec key key') as [->|]; [now elim Hk|reflexivity].
Qed.

Lemma get_assign_same (m : Map V) (key : string) (value : Value V) :
  get (assign m key value) key = Some value.
Proof. unfold assign. cbn [get]. now rewrite String.eqb_refl. Qed.

Lemma get_assign_other (m : Map V) (key key' : string) (value : Value V) :
  key <> key' -> get (assign m key value) key' = get m key'.
Proof.
  intros H. unfold assign. cbn [get]. rewrite get_delete.
  apply String.eqb_neq in H. now rewrite H.
Qed.

Lemma delete_keys (m : Map V) (key k : string) :
  In k (map fst (delete m key)) -> In k (map fst m) /\ k <> key.
Proof.
  induction m as [|[k' v] m IH]; cbn [delete map fst]; [intros []|].
  destruct (String.eqb_spec k' key) as [->|Hk].
  - intros H. destruct (IH H). split; [right|]; assumption.
  - cbn [map fst In]. intros [<-|H]; [split; [now left | exact Hk]|].
    destruct (IH H). split; [right|]; assumption.
Qed.

Lemma delete_NoDup (m : Map V) (key : string) :
  NoDup (map fst m) -> NoDup (map fst (delete m key)).
Proof.
  induction m as [|[k v] m IH]; cbn [delete map fst]; [trivial|].
  intros H. inversion H as [|? ? Hn Hm]; subst.
  destruct (k =? key); [now apply IH|].
  cbn [map fst]. constructor; [|now apply IH].
  intros Hin. apply delete_keys in Hin. now apply Hn.
Qed.

Lemma delete_length (m : Map V) (key : string) :
  length (delete m key) <= length m.
Proof.
  induction m as [|[k v] m IH]; cbn [delete length]; [lia|].
  destruct (k =? key); cbn [length]; lia.
Qed.

Lemma assign_NoDup (m : Map V) (key : string) (value : Value V) :
  NoDup (map fst m) -> NoDup (map fst (assign m key value)).
Proof.
  intros H. unfold assign. cbn [map fst]. constructor.
  - intros Hin. apply delete_keys in Hin as [_ Hin]. now apply Hin.
  - now apply delete_NoDup.
Qed.

(** The index [i+1] is in range whenever the loop runs on an even number
    of remaining values. *)
Lemma fill_no_panic (values : list (Value V)) :
  Nat.even (length values) = true ->
  forall d, fill values d <> Panic.
Proof.
  induction values as [| x | x y l IH] using pairs_ind; intros He d.
  - discriminate.
  - discriminate He.
  - destruct x; cbn [fill]; [|discriminate]. apply IH. exact He.
Qed.

Lemma fill_error (values : list (Value V)) :
  forall d msg, fill values d = Error msg ->
  msg = "" /\ exists v, In (Other v) (keysOf values).
Proof.
  induction values as [| x | x y l IH] using pairs_ind; intros d msg H.
  - discriminate H.
  - destruct x; cbn [fill] in H; [discriminate H|].
    injection H as <-. split; [reflexivity|]. exists v. now left.
  - destruct x; cbn [fill] in H.
    + destruct (IH _ _ H) as [Hm [v Hv]]. split; [exact Hm|].
      exists v. cbn [keysOf]. now right.
    + injection H as <-. split; [reflexivity|]. exists v. now left.
Qed.

Lemma fill_return (values : list (Value V)) :
  forall d m, fill values d = Return m ->
  (forall v, ~ In (Other v) (keysOf values)) /\
  (NoDup (map fst d) -> NoDup (map fst m)) /\
  length m <= length d + length values / 2 /\
  forall key, (exists v, get m key = Some v) <->
              (exists v, get d key = Some v) \/ In (Str key) (keysOf values).
Proof.
  induction values as [| x | x y l IH] using pairs_ind; intros d m H.
  - injection H as <-. split; [intros v []|]. split; [trivial|].
    split; [cbn; lia|]. intros key. split; [now left | now intros [H|[]]].
  - destruct x; discriminate H.
  - destruct x as [k|v]; cbn [fill] in H; [|discriminate H].
    destruct (IH _ _ H) as (Hno & Hnd & Hlen & Hkeys).
    split; [|split; [|split]].
    + intros v [Hv|Hv]; [discriminate Hv | now apply (Hno v)].
    + intros Hd. now apply Hnd, assign_NoDup.
    + change (length (Str k :: y :: l)) with (2 + length l).
      replace ((2 + length l) / 2) with (1 + length l / 2)
        by (symmetry; apply (Nat.div_add_l 1 2 (length l)); lia).
      unfold assign in Hlen. cbn [length] in Hlen.
      pose proof (delete_length d k). lia.
    + intros key. rewrite Hkeys. cbn [keysOf In].
      destruct (String.eqb_spec k key) as [->|Hk].
      * rewrite get_assign_same. split; [intros _|intros _; left; eauto].
        right. now left.
      * rewrite get_assign_other by exact Hk. split.
        -- intros [Hg|Hin]; [now left | right; now right].
        -- intros [Hg|[Heq|Hin]]; [now left | | right; exact Hin].
           injection Heq as Heq. now elim Hk.
Qed.

(** A key that does not come again keeps the value it has. *)
Lemma fill_keeps (values : list (Value V)) (key : string) :
  ~ In (Str key) (keysOf values) ->
  forall d m, fill values d = Return m -> get m key = get d key.
Proof.
  induction values as [| x | x y l IH] using pairs_ind; intros Hn d m H.
  - now injection H as <-.
  - destruct x; discriminate H.
  - destruct x as [k|v]; cbn [fill] in H; [|discriminate H].
    cbn [keysOf In] in Hn.
    rewrite (IH (fun Hin => Hn (or_intror Hin)) _ _ H).
    apply get_assign_other. intros ->. apply Hn. now left.
Qed.

(** The loop on two parts of the values, the first of even length. *)
Lemma fill_app (pre rest : list (Value V)) :
  Nat.even (length pre) = true ->
  forall d, fill (pre ++ rest) d =
            match fill pre d with
            | Return d' => fill rest d'
            | o => o
            end.
Proof.
  induction pre as [| x | x y l IH] using pairs_ind; intros He d.
  - reflexivity.
  - discriminate He.
  - destruct x; cbn [fill app]; [|reflexivity]. apply IH. exact He.
Qed.

Lemma dict_even (values : list (Value V)) :
  Nat.even (length values) = true -> dict values = fill values [].
Proof.
  intros He. unfold dict.
  apply Nat.even_spec in He as [n Hn]. rewrite Hn.
  replace (2 * n) with (n * 2) by lia.
  rewrite Nat.Div0.mod_mul. reflexivity.
Qed.

Lemma dict_odd (values : list (Value V)) :
  Nat.even (length values) = false ->
  dict values = Error "len(values) is 1".
Proof.
  intros He. unfold dict.
  assert (Ho : Nat.odd (length values) = true)
    by (unfold Nat.odd; now rewrite He).
  apply Nat.odd_spec in Ho as [n Hn]. rewrite Hn.
  replace (2 * n + 1) with (1 + n * 2) by lia.
  rewrite Nat.Div0.mod_add. reflexivity.
Qed.

End DictFacts.

(** X5. Called with an odd number of values, "dict" returns the error
    "len(values) is 1", whatever the number is: the message carries the
    remainder of the division by two, not the length. *)
Theorem dict_odd_length_error {V : Type} (values : list (Value V)) :
  Nat.odd (length values) = true ->
  dict values = Error "len(values) is 1".
Proof.
  intros Ho. apply dict_odd. unfold Nat.odd in Ho.
  now destruct (Nat.even (length values)).
Qed.

Lemma dict_odd_length_error_witness :
  Nat.odd (length [Str "a"; Other 1; Str "b"]) = true /\
  dict [Str "a"; Other 1; Str "b"] = Error "len(values) is 1".
Proof.
  split; [reflexivity|].
  exact (dict_odd_length_error [Str "a"; Other 1; Str "b"] eq_refl).
Defined.

(** X6. "dict" never panics: the read of [values[i+1]] is always within
    the slice, because the loop only runs on an even number of values. *)
Theorem dict_never_panics {V : Type} (values : list (Value V)) :
  dict values <> Panic.
Proof.
  destruct (Nat.even (length values)) eqn:He.
  - rewrite dict_even by exact He. now apply fill_no_panic.
  - rewrite dict_odd by exact He. discriminate.
Qed.

(** X7. Called with an even number of values, "dict" returns the error
    with the empty message exactly when one of the values at the even
    indices is not a string, and returns a map exactly when all of them
    are strings. *)
Theorem dict_key_must_be_string {V : Type} (values : list (Value V)) :
  Nat.even (length values) = true ->
  (dict values = Error "" <-> exists v, In (Other v) (keysOf values)) /\
  ((exists m, dict values = Return m) <->
   forall v, ~ In (Other v) (keysOf values)).
Proof.
  intros He. rewrite dict_even by exact He.
  pose proof (fill_no_panic V values He []) as Hp.
  destruct (fill values []) as [m|msg|] eqn:Hf; [| |now elim Hp].
  - destruct (fill_return V values _ _ Hf) as [Hno _]. split; split.
    + discriminate.
    + intros [v Hv]. now elim (Hno v).
    + intros _. exact Hno.
    + intros _. now exists m.
  - destruct (fill_error V values _ _ Hf) as [-> Hv]. split; split.
    + intros _. exact Hv.
    + reflexivity.
    + intros [m Hm]. discriminate Hm.
    + intros Hno. destruct Hv as [v Hv]. now elim (Hno v).
Qed.

Lemma dict_key_must_be_string_witness :
  Nat.even (length [Str "a"; Str "x"; Other 7; Str "y"]) = true /\
  (dict [Str "a"; Str "x"; Other 7; Str "y"] = Error "" <->
   exists v, In (Other v) (keysOf [Str "a"; Str "x"; Other 7; Str "y"])) /\
  ((exists m, dict [Str "a"; Str "x"; Other 7; Str "y"] = Return m) <->
   forall v, ~ In (Other v) (keysOf [Str "a"; Str "x"; Other 7; Str "y"])).
Proof.
  split; [reflexivity|].
  exact (dict_key_must_be_string [Str "a"; Str "x"; Other 7; Str "y"] eq_refl).
Defined.

(** X8. The map that "dict" returns has exactly the strings at the even
    indices for keys, each of them once, and so at most half as many
    entries as there are values. *)
Theorem dict_keys_are_even_positions {V : Type}
  (values : list (Value V)) (m : Map V) :
  dict values = Return m ->
  NoDup (map fst m) /\
  length m <= length values / 2 /\
  forall key, (exists v, get m key = Some v) <-> In (Str key) (keysOf values).
Proof.
  intros H.
  destruct (Nat.even (length values)) eqn:He;
    [|rewrite dict_odd in H by exact He; discriminate H].
  rewrite dict_even in H by exact He.
  destruct (fill_return V values _ _ H) as (_ & Hnd & Hlen & Hkeys).
  split; [apply Hnd; constructor|]. split; [exact Hlen|].
  intros key. rewrite Hkeys. split; [|now right].
  intros [[v Hv]|Hin]; [discriminate Hv | exact Hin].
Qed.

Lemma dict_keys_are_even_positions_witness :
  dict [Str "a"; Other 1; Str "b"; Str "x"; Str "a"; Other 2]
  = Return [("a", Other 2); ("b", Str "x")] /\
  NoDup (map fst [("a", Other 2); ("b", @Str nat "x")]) /\
  length [("a", Other 2); ("b", @Str nat "x")]
  <= length [Str "a"; Other 1; Str "b"; Str "x"; Str "a"; Other 2] / 2 /\
  forall key,
    (exists v, get [("a", Other 2); ("b", Str "x")] key = Some v) <->
    In (Str key)
       (keysOf [Str "a"; Other 1; Str "b"; Str "x"; Str "a"; Other 2]).
Proof.
  split; [reflexivity|].
  exact (dict_keys_are_even_positions
           [Str "a"; Other 1; Str "b"; Str "x"; Str "a"; Other 2]
           [("a", Other 2); ("b", Str "x")] eq_refl).
Defined.

(** X9. Looking a key up in the map of "dict" gives the value that follows
    the last occurrence of the key among the values: a later pair with the
    same key replaces an earlier one. *)
Theorem dict_last_pair_wins {V : Type}
  (pre rest : list (Value V)) (key : string) (value : Value V) (m : Map V) :
  Nat.even (length pre) = true ->
  ~ In (Str key) (keysOf rest) ->
  dict (pre ++ Str key :: value :: rest) = Return m ->
  get m key = Some value.
Proof.
  intros He Hn H.
  destruct (Nat.even (length (pre ++ Str key :: value :: rest))) eqn:Hall;
    [|rewrite dict_odd in H by exact Hall; discriminate H].
  rewrite dict_even, fill_app in H by assumption.
  destruct (fill pre []) as [d| |]; try discriminate H.
  cbn [fill] in H. rewrite (fill_keeps V rest key Hn _ _ H).
  apply get_assign_same.
Qed.

Lemma dict_last_pair_wins_witness :
  Nat.even (length [Str "a"; Other 1]) = true /\
  ~ In (Str "a") (keysOf [Str "b"; @Str nat "x"]) /\
  dict ([Str "a"; Other 1] ++ Str "a" :: Other 2 :: [Str "b"; Str "x"])
  = Return [("b", Str "x"); ("a", Other 2)] /\
  get [("b", Str "x"); ("a", Other 2)] "a" = Some (Other 2).
Proof.
  assert (Hn : ~ In (Str "a") (keysOf [Str "b"; @Str nat "x"])).
  { intros [H|[]]. discriminate H. }
  split; [reflexivity|]. split; [exact Hn|]. split; [reflexivity|].
  exact (dict_last_pair_wins [Str "a"; Other 1] [Str "b"; Str "x"] "a"
           (Other 2) [("b", Str "x"); ("a", Other 2)] eq_refl Hn eq_refl).
Defined.

(** ** The template function "minus" *)

Lemma pow2_double (bits : Z) :
  (0 < bits)%Z -> (2 ^ bits = 2 * 2 ^ (bits - 1))%Z.
Proof.
  intros H. replace bits with (Z.succ (bits - 1)) at 1 by lia.
  apply Z.pow_succ_r. lia.
Qed.

Lemma wrap_congruent (bits z : Z) :
  (0 < bits)%Z ->
  isInt bits (wrap bits z) /\ exists q, (wrap bits z = z + q * 2 ^ bits)%Z.
Proof.
  intros H. unfold isInt, wrap.
  pose proof (pow2_double bits H) as Hd.
  assert (Hh : (0 < 2 ^ (bits - 1))%Z) by (apply Z.pow_pos_nonneg; lia).
  pose proof (Z.mod_pos_bound (z + 2 ^ (bits - 1)) (2 ^ bits) ltac:(lia)).
  split; [lia|].
  exists (- ((z + 2 ^ (bits - 1)) / 2 ^ bits))%Z.
  pose proof (Z.div_mod (z + 2 ^ (bits - 1)) (2 ^ bits) ltac:(lia)). lia.
Qed.

Lemma isInt_unique (bits x y q : Z) :
  (0 < bits)%Z -> isInt bits x -> isInt bits y ->
  (x = y + q * 2 ^ bits)%Z -> x = y.
Proof.
  unfold isInt. intros H Hx Hy E.
  pose proof (pow2_double bits H) as Hd.
  assert (q = 0)%Z by nia. subst q. lia.
Qed.

(** X10. "minus" gives an [int]: the difference when that is an [int],
    and otherwise the difference moved by a multiple of 2^bits into the
    range (the wrap-around of Go's subtraction). *)
Theorem minus_wraps_around (bits a b : Z) :
  (0 < bits)%Z ->
  isInt bits (minus bits a b) /\
  (exists q, minus bits a b = a - b + q * 2 ^ bits)%Z /\
  (isInt bits (a - b) -> minus bits a b = a - b)%Z.
Proof.
  intros H. unfold minus.
  destruct (wrap_congruent bits (a - b) H) as [Hr [q Hq]].
  split; [exact Hr|]. split; [now exists q|].
  intros Hi. exact (isInt_unique bits _ _ q H Hr Hi Hq).
Qed.

Lemma minus_wraps_around_witness :
  (0 < 64)%Z /\
  isInt 64 (minus 64 (-9223372036854775808) 1) /\
  (exists q, minus 64 (-9223372036854775808) 1
             = -9223372036854775808 - 1 + q * 2 ^ 64)%Z /\
  (isInt 64 (-9223372036854775808 - 1) ->
   minus 64 (-9223372036854775808) 1 = -9223372036854775808 - 1)%Z.
Proof.
  split; [reflexivity|].
  exact (minus_wraps_around 64 (-9223372036854775808) 1 eq_refl).
Defined.

(** The smallest [int] minus one is the largest one. *)
Example minus_min_int :
  minus 64 (-9223372036854775808) 1 = 9223372036854775807%Z.
Proof. reflexivity. Qed.

(** X11. Taking a difference away again gives the second operand back,
    with or without wrap-around: minus a (minus a b) = b for every [int]
    b. *)
Theorem minus_minus_cancels (bits a b : Z) :
  (0 < bits)%Z -> isInt bits b ->
  minus bits a (minus bits a b) = b.
Proof.
  intros H Hb. unfold minus.
  destruct (wrap_congruent bits (a - b) H) as [_ [q Hq]].
  destruct (wrap_congruent bits (a - wrap bits (a - b)) H) as [Hr [q' Hq']].
  apply (isInt_unique bits _ _ (q' - q) H Hr Hb). lia.
Qed.

Lemma minus_minus_cancels_witness :
  (0 < 64)%Z /\ isInt 64 9223372036854775807 /\
  minus 64 (-5) (minus 64 (-5) 9223372036854775807) = 9223372036854775807%Z.
Proof.
  assert (Hb : isInt 64 9223372036854775807) by (unfold isInt; lia).
  split; [reflexivity|]. split; [exact Hb|].
  exact (minus_minus_cancels 64 (-5) 9223372036854775807 eq_refl Hb).
Defined.

(** ** The session cookie and the static mounts *)

Lemma HasPrefix_iff (s p : string) :
  strings.HasPrefix s p = true <-> exists rest, s = p ++ rest.
Proof.
  split; [apply HasPrefix_inv | intros [rest ->]; apply HasPrefix_app].
Qed.

(** X12. The session cookie is marked Secure exactly when the configured
    server address begins with the five bytes "https"; it is HttpOnly and
    bound to the path "/" for every configuration. *)
Theorem cookie_secure_iff_https (conf : Conf) :
  (sessions.Secure (storeOptions conf) = true <->
   exists rest, Server conf = "https" ++ rest) /\
  sessions.HttpOnly (storeOptions conf) = true /\
  sessions.Path (storeOptions conf) = "/".
Proof.
  split; [|split; reflexivity].
  unfold storeOptions. cbn [sessions.Secure]. apply HasPrefix_iff.
Qed.

(** An address in capitals does not count as https. *)
Example cookie_not_secure_for_capitals :
  sessions.Secure
    (storeOptions {| SessionSecret := ""; SessionMaxAge := 0;
                     Server := "HTTPS://pipe.example.org";
                     RuntimeMode := "prod" |}) = false.
Proof. reflexivity. Qed.

(** X13. The static mounts of the themes are three for each theme, and
    each serves, under the path "/theme/x/<theme>/<sub>", the directory
    "theme/x/<theme>/<sub>" for <sub> one of css, js and images: the path
    is the directory with a leading separator, and no other directory of
    a theme is mounted. *)
Theorem theme_statics_mirror_directories
  (Themes : list string) (relativePath root : string) :
  length (themeStatics Themes) = 3 * length Themes /\
  (In (relativePath, root) (themeStatics Themes) <->
   exists theme sub,
     In theme Themes /\ In sub ["css"; "js"; "images"] /\
     root = "theme/x/" ++ theme ++ "/" ++ sub /\
     relativePath = "/" ++ root).
Proof.
  split.
  - unfold themeStatics. induction Themes as [|t ts IH];
      [reflexivity|]. cbn [flat_map app length] in *. lia.
  - unfold themeStatics. rewrite in_flat_map. split.
    + intros (theme & Hin & H). exists theme. cbv beta zeta in H.
      cbn [In] in H.
      destruct H as [H|[H|[H|[]]]]; injection H as <- <-;
        [exists "css" | exists "js" | exists "images"];
        (split; [exact Hin|]); cbn [In];
        (split; [tauto|]);
        rewrite ?append_assoc; cbn [append]; split; reflexivity.
    + intros (theme & sub & Hin & Hsub & -> & ->). exists theme.
      split; [exact Hin|]. cbv beta zeta. cbn [In] in *.
      destruct Hsub as [<-|[<-|[<-|[]]]];
        rewrite ?append_assoc; cbn [append]; tauto.
Qed.

(** ** The route table *)

Ltac in_list := solve [repeat (first [left; reflexivity | right])].

Ltac not_in_list H :=
  solve [repeat (destruct H as [H|H]; try discriminate H); contradiction].

Ltac each_route Hin :=
  unfold Engine.MapRoutes in Hin; cbv zeta in Hin;
  match type of Hin with
  | context [if ?b then _ else _] => destruct b
  end;
  cbn [app In Engine.handle Engine.Group Engine.Use Engine.basePath
       Engine.Handlers] in Hin;
  repeat (destruct Hin as [<-|Hin]); try contradiction.

(** X14. Every action of package [console] that [MapRoutes] registers,
    except [CheckVersion] and [ShowAdminPagesAction], runs behind
    [console.LoginCheck]: its middleware is [gin.Recovery()], the sessions
    and the login check, in this order, in every runtime mode. *)
Theorem console_actions_behind_login
  (conf : Conf) (P : Engine.Paths) (r : Engine.Route) :
  In r (Engine.MapRoutes conf P) ->
  Engine.ofConsole (Engine.handler r) = true ->
  Engine.handler r <> Engine.CheckVersion ->
  Engine.handler r <> Engine.ShowAdminPagesAction ->
  Engine.middleware r
  = [Engine.Recovery; Engine.Sessions; Engine.LoginCheck].
Proof.
  intros Hin Hc H1 H2.
  each_route Hin; cbn in Hc, H1, H2 |- *;
    first [reflexivity | discriminate Hc | now elim H1 | now elim H2].
Qed.

Lemma console_actions_behind_login_witness :
  In {| Engine.method := Engine.DELETE;
        Engine.path := ["/api"; "/console"; "/articles/:id"];
        Engine.middleware :=
          [Engine.Recovery; Engine.Sessions; Engine.LoginCheck];
        Engine.handler := Engine.RemoveArticleAction |}
     (Engine.MapRoutes devConf rootPaths) /\
  Engine.ofConsole Engine.RemoveArticleAction = true /\
  Engine.RemoveArticleAction <> Engine.CheckVersion /\
  Engine.RemoveArticleAction <> Engine.ShowAdminPagesAction /\
  [Engine.Recovery; Engine.Sessions; Engine.LoginCheck]
  = [Engine.Recovery; Engine.Sessions; Engine.LoginCheck].
Proof.
  assert (Hin : In {| Engine.method := Engine.DELETE;
        Engine.path := ["/api"; "/console"; "/articles/:id"];
        Engine.middleware :=
          [Engine.Recovery; Engine.Sessions; Engine.LoginCheck];
        Engine.handler := Engine.RemoveArticleAction |}
     (Engine.MapRoutes devConf rootPaths))
    by (do 13 right; left; reflexivity).
  assert (H1 : Engine.RemoveArticleAction <> Engine.CheckVersion)
    by discriminate.
  assert (H2 : Engine.RemoveArticleAction <> Engine.ShowAdminPagesAction)
    by discriminate.
  split; [exact Hin|]. split; [reflexivity|].
  split; [exact H1|]. split; [exact H2|].
  exact (console_actions_behind_login devConf rootPaths _ Hin eq_refl H1 H2).
Defined.

(** X15. The login check guards exactly the routes below
    [util.PathAPI]/console, the settings group included: a registered
    route has [LoginCheck] among its middleware if and only if its path
    goes through these two segments. *)
Theorem login_check_iff_console_path
  (conf : Conf) (P : Engine.Paths) (r : Engine.Route) :
  In r (Engine.MapRoutes conf P) ->
  (In Engine.LoginCheck (Engine.middleware r) <->
   exists rest, Engine.path r = Engine.PathAPI P :: "/console" :: rest).
Proof.
  intros Hin.
  each_route Hin; cbn [Engine.middleware Engine.path app In];
    (split;
     [ intros H; first [ eexists; reflexivity | not_in_list H ]
     | intros [rest H]; first [ in_list | discriminate H | congruence ] ]).
Qed.

Lemma login_check_iff_console_path_witness :
  In {| Engine.method := Engine.PUT;
        Engine.path := ["/api"; "/console"; "/settings"; "/basic"];
        Engine.middleware :=
          [Engine.Recovery; Engine.Sessions; Engine.LoginCheck];
        Engine.handler := Engine.UpdateBasicSettingsAction |}
     (Engine.MapRoutes devConf rootPaths) /\
  (In Engine.LoginCheck
      [Engine.Recovery; Engine.Sessions; Engine.LoginCheck] <->
   exists rest, ["/api"; "/console"; "/settings"; "/basic"]
                = Engine.PathAPI rootPaths :: "/console" :: rest).
Proof.
  assert (Hin : In {| Engine.method := Engine.PUT;
        Engine.path := ["/api"; "/console"; "/settings"; "/basic"];
        Engine.middleware :=
          [Engine.Recovery; Engine.Sessions; Engine.LoginCheck];
        Engine.handler := Engine.UpdateBasicSettingsAction |}
     (Engine.MapRoutes devConf rootPaths))
    by (do 34 right; left; reflexivity).
  split; [exact Hin|].
  exact (login_check_iff_console_path devConf rootPaths _ Hin).
Defined.


(** X17. Every registered route runs [gin.Recovery()] and the sessions
    middleware first, and [resolveBlog] is among the middleware of exactly
    the two routes of the blog group, the article list and [routePath]. *)
Theorem resolver_only_on_blog_routes
  (conf : Conf) (P : Engine.Paths) (r : Engine.Route) :
  In r (Engine.MapRoutes conf P) ->
  (exists rest,
     Engine.middleware r = Engine.Recovery :: Engine.Sessions :: rest) /\
  (In Engine.resolveBlog (Engine.middleware r) <->
   Engine.handler r = Engine.showArticlesAction \/
   Engine.handler r = Engine.routePath).
Proof.
  intros Hin.
  each_route Hin; cbn [Engine.middleware Engine.handler app In];
    (split; [eexists; reflexivity|]);
    (split;
     [ intros H; first [ now left | now right | not_in_list H ]
     | intros [H|H]; first [ in_list | discriminate H ] ]).
Qed.

Lemma resolver_only_on_blog_routes_witness :
  In {| Engine.method := Engine.Any;
        Engine.path := ["/blogs/:username"; "/*path"];
        Engine.middleware :=
          [Engine.Recovery; Engine.Sessions; Engine.fillUser;
           Engine.resolveBlog];
        Engine.handler := Engine.routePath |}
     (Engine.MapRoutes devConf rootPaths) /\
  (exists rest,
     [Engine.Recovery; Engine.Sessions; Engine.fillUser; Engine.resolveBlog]
     = Engine.Recovery :: Engine.Sessions :: rest) /\
  (In Engine.resolveBlog
      [Engine.Recovery; Engine.Sessions; Engine.fillUser;
       Engine.resolveBlog] <->
   Engine.routePath = Engine.showArticlesAction \/
   Engine.routePath = Engine.routePath).
Proof.
  assert (Hin : In {| Engine.method := Engine.Any;
        Engine.path := ["/blogs/:username"; "/*path"];
        Engine.middleware :=
          [Engine.Recovery; Engine.Sessions; Engine.fillUser;
           Engine.resolveBlog];
        Engine.handler := Engine.routePath |}
     (Engine.MapRoutes devConf rootPaths))
    by (do 44 right; left; reflexivity).
  split; [exact Hin|].
  exact (resolver_only_on_blog_routes devConf rootPaths _ Hin).
Defined.
